(** * Conversation aggregate of the chat backend

    A shallow embedding of [backend/models/Conversation.js] (schema and
    document methods), [backend/routes/conversations.js] (the REST handlers)
    and the enhanced [POST /api/chat] handler, followed by the properties of
    the conversation service.

    Conventions of the embedding.
    - A JavaScript string is a [string]; each [ascii] stands for one UTF-16
      code unit below 256, so [String.length] is [.length] and
      [substring 0 n] is [.substring(0, n)].
    - A JavaScript [Number] is a [Q] where it can be fractional (settings)
      and an [N] or a [positive] where the code only counts.
    - The collection is a finite map from [_id] to document; the owner filter
      [{ _id, userId }] is a lookup followed by a test on [userId].
    - [Date.now()] is the argument [now] of each handler.
    - Path and body fields arrive already typed: ids are well-formed
      ObjectIds ([N]), optional fields are [option]s ([None] is
      [undefined]), [page] and [limit] are positive integers.  The router
      of the GET requests is the exception: it takes the path as the
      segments it arrives as, and the handler of [/:id] casts its
      parameter as the query does.
    - The schema acts as Mongoose applies it: a setter ([trim]) runs when a
      value is assigned, pushed or sent in an update; [save] validates the
      paths set since the last save; an update with [runValidators]
      validates the paths it sets before the query runs.
    - The regular-expression engine of the database and the completion
      client are parameters of the routes. *)

From Stdlib Require Import ZArith NArith QArith String Ascii List Lia.
From stdpp Require Import base option list gmap strings sorting.

Local Open Scope string_scope.
Local Open Scope list_scope.

(** ** JavaScript string helpers *)

Module JsString.

(** Code units below 256 that [String.prototype.trim] strips: TAB, LF, VT,
    FF, CR, SPACE and NBSP. *)
Definition is_white (c : ascii) : bool :=
  match nat_of_ascii c with
  | 9%nat | 10%nat | 11%nat | 12%nat | 13%nat | 32%nat | 160%nat => true
  | _ => false
  end.

Fixpoint trim_start (s : string) : string :=
  match s with
  | EmptyString => EmptyString
  | String c s' => if is_white c then trim_start s' else s
  end.

Fixpoint trim_end (s : string) : string :=
  match s with
  | EmptyString => EmptyString
  | String c s' =>
      match trim_end s' with
      | EmptyString => if is_white c then EmptyString else String c EmptyString
      | String _ _ as r => String c r
      end
  end.

(** [s.trim()] *)
Definition trim (s : string) : string := trim_end (trim_start s).

(** JavaScript truthiness of a string value. *)
Definition truthy (s : string) : bool :=
  match s with EmptyString => false | _ => true end.

(** Truthiness of an optional string field ([undefined] is falsy). *)
Definition truthy_opt (o : option string) : bool :=
  match o with Some s => truthy s | None => false end.

(** [a || b] on an optional string with a string default. *)
Definition or_else (o : option string) (d : string) : string :=
  match o with
  | Some s => if truthy s then s else d
  | None => d
  end.

(** ASCII case folding, the folding a caseless match applies to the
    characters below 128. *)
Definition lower_char (c : ascii) : ascii :=
  let n := nat_of_ascii c in
  if (65 <=? n)%nat && (n <=? 90)%nat then ascii_of_nat (n + 32) else c.

Fixpoint lower (s : string) : string :=
  match s with
  | EmptyString => EmptyString
  | String c s' => String (lower_char c) (lower s')
  end.

(** Characters with a meaning of their own in a regular expression. *)
Definition is_meta (c : ascii) : bool :=
  match nat_of_ascii c with
  | 92%nat | 94%nat | 36%nat | 46%nat | 124%nat | 63%nat | 42%nat | 43%nat
  | 40%nat | 41%nat | 91%nat | 93%nat | 123%nat | 125%nat => true
  | _ => false
  end.

(** Printable ASCII characters that a pattern takes literally. *)
Definition is_plain (c : ascii) : bool :=
  let n := nat_of_ascii c in
  (32 <=? n)%nat && (n <=? 126)%nat && negb (is_meta c).

End JsString.

(** ** ObjectIds written as text *)

Module ObjectId.

Definition hex_digit (c : ascii) : option N :=
  let n := N_of_ascii c in
  if (48 <=? n)%N && (n <=? 57)%N then Some (n - 48)%N
  else if (97 <=? n)%N && (n <=? 102)%N then Some (n - 87)%N
  else if (65 <=? n)%N && (n <=? 70)%N then Some (n - 55)%N
  else None.

Fixpoint hex_value (acc : N) (s : string) : option N :=
  match s with
  | EmptyString => Some acc
  | String c s' =>
      match hex_digit c with
      | Some d => hex_value (16 * acc + d)%N s'
      | None => None
      end
  end.

(** The cast of a string to an ObjectId: the 24 hexadecimal digits of its
    twelve bytes.  Every other text is rejected (older drivers also take a
    text of exactly twelve characters for the bytes themselves; the
    properties below cast no such text). *)
Definition cast (s : string) : option N :=
  if bool_decide (String.length s = 24%nat) then hex_value 0 s else None.

End ObjectId.

(** ** Data model ([models/Conversation.js]) *)

(** [messageSchema] *)
Record message := {
  role : string;
  content : string;
  timestamp : N;
  tokens : N;
  msg_model : string
}.

(** The nested [settings] path.  A stored document may lack either key;
    reading it through the schema fills in the default. *)
Record settings_obj := {
  temperature : option Q;
  maxTokens : option Q
}.

(** [conversationSchema]; the [_id] is the key of the collection. *)
Record conversation := {
  userId : N;
  title : string;
  messages : list message;
  isArchived : bool;
  isPinned : bool;
  tags : list string;
  totalTokens : N;
  model : string;
  settings : settings_obj;
  createdAt : N;
  updatedAt : N
}.

Definition default_model : string := "gpt-4o-mini".
Definition default_temperature : Q := 7 # 10.
Definition default_maxTokens : Q := 1000 # 1.

(** Schema defaults applied when a key is absent. *)
Definition temperature_of (s : settings_obj) : Q :=
  default default_temperature (temperature s).
Definition maxTokens_of (s : settings_obj) : Q :=
  default default_maxTokens (maxTokens s).

(** The collection of conversations. *)
Abbreviation store := (gmap N conversation).

(** The virtual [messageCount]. *)
Definition messageCount (c : conversation) : nat := length (messages c).

(** [this.messages[this.messages.length - 1]]; [None] is [undefined]. *)
Definition lastMessage (c : conversation) : option message :=
  last (messages c).

(** What [getSummary] returns. *)
Record summary := {
  s_id : N;
  s_title : string;
  s_messageCount : nat;
  s_lastMessage : option message;
  s_createdAt : N;
  s_updatedAt : N;
  s_isArchived : bool;
  s_isPinned : bool;
  s_tags : list string
}.

Definition getSummary (id : N) (c : conversation) : summary :=
  {| s_id := id;
     s_title := title c;
     s_messageCount := messageCount c;
     s_lastMessage := lastMessage c;
     s_createdAt := createdAt c;
     s_updatedAt := updatedAt c;
     s_isArchived := isArchived c;
     s_isPinned := isPinned c;
     s_tags := tags c |}.

(** ** Outcomes of a request *)

(** The failure taxonomy of the service; [status_code] is the HTTP status
    each handler sends for it. *)
Inductive failure :=
| ValidationFailure
| AuthFailure
| NotFound
| Conflict
| RateLimited
| ProviderError
| InternalError.

Definition status_code (f : failure) : nat :=
  match f with
  | ValidationFailure => 400
  | AuthFailure => 401
  | NotFound => 404
  | Conflict => 409
  | RateLimited => 429
  | ProviderError => 500
  | InternalError => 500
  end.

Inductive result (A : Type) :=
| Ok (a : A)
| Err (f : failure).
Arguments Ok {A} a.
Arguments Err {A} f.

(** What an awaited call can throw: a Mongoose [ValidationError] or
    [CastError], another database error, or the error of the completion
    client.  Of that error object the model keeps the two places a status
    can sit in: the field [error.status] and the field
    [error.response?.status]. *)
Inductive exn :=
| ValidationError
| CastError
| MongoError
| ApiError (status : option nat) (response_status : option nat).

Inductive outcome (A : Type) :=
| Done (a : A)
| Thrown (e : exn).
Arguments Done {A} a.
Arguments Thrown {A} e.

(** The body of a handler reads and writes the collection and either
    completes or throws; whatever was persisted before a throw stays
    persisted. *)
Definition M (A : Type) : Type := store -> outcome A * store.

#[global] Instance M_ret : MRet M := fun A a st => (Done a, st).
#[global] Instance M_bind : MBind M := fun A B f m st =>
  match m st with
  | (Done a, st') => f a st'
  | (Thrown e, st') => (Thrown e, st')
  end.

Definition throw {A} (e : exn) : M A := fun st => (Thrown e, st).

(** A handler answers every request: a payload or a failure. *)
Definition handler (A : Type) : Type := store -> result A * store.

(** [try { body } catch (error) { res.status(on_error error) }] *)
Definition try_catch {A} (body : M (result A)) (on_error : exn -> failure)
    : handler A := fun st =>
  match body st with
  | (Done r, st') => (r, st')
  | (Thrown e, st') => (Err (on_error e), st')
  end.

(** ** Documents in memory and the document methods *)

(** A hydrated document: its data, whether it was never saved, and the
    paths set since the last save, which are the ones [save] validates. *)
Record document := {
  doc_id : N;
  doc_data : conversation;
  doc_new : bool;
  title_dirty : bool;
  pushed : list message
}.

Definition with_title (t : string) (c : conversation) : conversation :=
  {| userId := userId c; title := t; messages := messages c;
     isArchived := isArchived c; isPinned := isPinned c; tags := tags c;
     totalTokens := totalTokens c; model := model c; settings := settings c;
     createdAt := createdAt c; updatedAt := updatedAt c |}.

Definition with_pushed (m : message) (mdl : string) (c : conversation) : conversation :=
  {| userId := userId c; title := title c; messages := messages c ++ [m];
     isArchived := isArchived c; isPinned := isPinned c; tags := tags c;
     totalTokens := totalTokens c; model := mdl; settings := settings c;
     createdAt := createdAt c; updatedAt := updatedAt c |}.

Definition with_times (created updated : N) (c : conversation) : conversation :=
  {| userId := userId c; title := title c; messages := messages c;
     isArchived := isArchived c; isPinned := isPinned c; tags := tags c;
     totalTokens := totalTokens c; model := model c; settings := settings c;
     createdAt := created; updatedAt := updated |}.

(** [enum: ['user', 'assistant']] *)
Definition valid_role (r : string) : bool :=
  bool_decide (r = "user") || bool_decide (r = "assistant").

(** [messageSchema] validators: [role] in the enum, [content] required. *)
Definition valid_message (m : message) : bool :=
  valid_role (role m) && JsString.truthy (content m).

(** [title] validators: required, [maxlength: 100]. *)
Definition valid_title (t : string) : bool :=
  JsString.truthy t && (String.length t <=? 100)%nat.

Definition valid_document (d : document) : bool :=
  (if title_dirty d then valid_title (title (doc_data d)) else true)
  && forallb valid_message (pushed d).

(** [new Conversation({ userId, title })]: setters and defaults applied. *)
Definition new_conversation (id uid : N) (t : string) : document :=
  {| doc_id := id;
     doc_data :=
       {| userId := uid; title := JsString.trim t; messages := [];
          isArchived := false; isPinned := false; tags := [];
          totalTokens := 0; model := default_model;
          settings := {| temperature := Some default_temperature;
                         maxTokens := Some default_maxTokens |};
          createdAt := 0; updatedAt := 0 |};
     doc_new := true; title_dirty := true; pushed := [] |}.

(** A document read from the collection. *)
Definition hydrate (id : N) (c : conversation) : document :=
  {| doc_id := id; doc_data := c; doc_new := false;
     title_dirty := false; pushed := [] |}.

(** [Conversation.findOne({ _id, userId })] *)
Definition lookup_owned (st : store) (id uid : N) : option conversation :=
  match st !! id with
  | Some c => if bool_decide (userId c = uid) then Some c else None
  | None => None
  end.

Definition findOne (id uid : N) : M (option document) := fun st =>
  (Done (option_map (hydrate id) (lookup_owned st id uid)), st).

(** The document as [save] leaves it in memory: the timestamps plugin
    stamps [createdAt] on insert and [updatedAt] on every write, and
    nothing is pending any more. *)
Definition stamped (now : N) (d : document) : document :=
  {| doc_id := doc_id d;
     doc_data := with_times (if doc_new d then now else createdAt (doc_data d))
                            now (doc_data d);
     doc_new := false; title_dirty := false; pushed := [] |}.

(** [this.isModified()]: is a path of the document set since the last
    save? *)
Definition modified (d : document) : bool :=
  title_dirty d || match pushed d with [] => false | _ :: _ => true end.

(** [this.save()]: validation first; a new document is inserted (a taken
    [_id] is a duplicate-key error); a known one is written back, and
    stamped, when a path of it is modified; with no modified path nothing
    is sent to the database and the document stays as it is. *)
Definition save (now : N) (d : document) : M document := fun st =>
  if negb (valid_document d) then (Thrown ValidationError, st)
  else if doc_new d then
    if bool_decide (is_Some (st !! doc_id d)) then (Thrown MongoError, st)
    else (Done (stamped now d), <[doc_id d := doc_data (stamped now d)]> st)
  else if modified d
  then (Done (stamped now d), <[doc_id d := doc_data (stamped now d)]> st)
  else (Done d, st).

(** [this.messages.push({ role, content, model, timestamp: new Date() });
    this.model = model]: the pushed object is cast by [messageSchema], whose
    setter trims the content. *)
Definition push_message (now : N) (r c mdl : string) (d : document) : document :=
  let m := {| role := r; content := JsString.trim c; timestamp := now;
              tokens := 0; msg_model := mdl |} in
  {| doc_id := doc_id d; doc_data := with_pushed m mdl (doc_data d);
     doc_new := doc_new d; title_dirty := title_dirty d;
     pushed := pushed d ++ [m] |}.

(** [conversationSchema.methods.addMessage]; [mdl = None] is the omitted
    third argument, which takes the default. *)
Definition addMessage (now : N) (r c : string) (mdl : option string)
    (d : document) : M document :=
  save now (push_message now r c (default default_model mdl) d).

(** The title [updateTitleFromFirstMessage] derives from a content. *)
Definition derived_title (c : string) : string :=
  substring 0 50 c +:+ (if (50 <? String.length c)%nat then "..." else "").

(** The assignment of [updateTitleFromFirstMessage]; the [title] setter
    trims. *)
Definition retitle (d : document) : document :=
  let firstUserMessage :=
    List.find (fun msg => bool_decide (role msg = "user")) (messages (doc_data d)) in
  match firstUserMessage with
  | Some m =>
      if negb (JsString.truthy (title (doc_data d)))
      then {| doc_id := doc_id d;
              doc_data := with_title (JsString.trim (derived_title (content m)))
                                     (doc_data d);
              doc_new := doc_new d; title_dirty := true; pushed := pushed d |}
      else d
  | None => d
  end.

(** [conversationSchema.methods.updateTitleFromFirstMessage] *)
Definition updateTitleFromFirstMessage (now : N) (d : document) : M document :=
  save now (retitle d).

(** ** The conversation routes ([routes/conversations.js]) *)

(** The projection [.select('title messageCount lastMessage createdAt
    updatedAt isArchived isPinned tags')] of a found document: the stored
    paths among those named, and the [_id]. *)
Record list_item := {
  li_id : N;
  li_title : string;
  li_createdAt : N;
  li_updatedAt : N;
  li_isArchived : bool;
  li_isPinned : bool;
  li_tags : list string
}.

Definition select_item (kc : N * conversation) : list_item :=
  {| li_id := kc.1; li_title := title kc.2; li_createdAt := createdAt kc.2;
     li_updatedAt := updatedAt kc.2; li_isArchived := isArchived kc.2;
     li_isPinned := isPinned kc.2; li_tags := tags kc.2 |}.

Record page_response := {
  conversations : list list_item;
  totalPages : nat;
  currentPage : positive;
  total : nat
}.

(** [Math.ceil(total / limit)] for a positive [limit]. *)
Definition ceil_div (total limit : nat) : nat := (total + limit - 1) / limit.

(** [.sort({ updatedAt: -1 })]: [x] may come before [y]. *)
Definition newer_first (x y : N * conversation) : Prop :=
  (updatedAt y.2 <= updatedAt x.2)%N.

#[global] Instance newer_first_dec : RelDecision newer_first.
Proof. intros x y. unfold newer_first. apply _. Defined.

(** [find(query).sort().limit(limit).skip((page - 1) * limit)]: the server
    sorts, then skips, then limits, whatever the order of the calls.  The
    sort has the one key [updatedAt]; among documents with the same
    [updatedAt] the database promises no order, and this model takes the
    one of a stable sort.  What is proved of an order below holds of every
    descending order, or is stated for documents with distinct
    [updatedAt]. *)
Definition paginate (page limit : positive) (found : list (N * conversation))
    : list (N * conversation) :=
  take (Pos.to_nat limit)
       (drop ((Pos.to_nat page - 1) * Pos.to_nat limit)
             (merge_sort newer_first found)).

(** The body of a [PUT], and the [updates] object built from it. *)
Record patch := {
  p_title : option string;
  p_tags : option (list string);
  p_isArchived : option bool;
  p_isPinned : option bool;
  p_settings : option settings_obj
}.

Definition empty_patch : patch :=
  {| p_title := None; p_tags := None; p_isArchived := None;
     p_isPinned := None; p_settings := None |}.

(** [{ ...a, ...b }] on settings objects; spreading [undefined] adds no
    key. *)
Definition spread (a : option settings_obj) (b : settings_obj) : settings_obj :=
  let a := default {| temperature := None; maxTokens := None |} a in
  {| temperature := match temperature b with
                    | Some t => Some t
                    | None => temperature a
                    end;
     maxTokens := match maxTokens b with
                  | Some t => Some t
                  | None => maxTokens a
                  end |}.

(** The [updates] object of the [PUT] handler, assignment by assignment. *)
Definition build_updates (body : patch) : patch :=
  let updates := empty_patch in
  let updates :=
    match p_title body with
    | Some t => {| p_title := Some t; p_tags := p_tags updates;
                   p_isArchived := p_isArchived updates;
                   p_isPinned := p_isPinned updates;
                   p_settings := p_settings updates |}
    | None => updates
    end in
  let updates :=
    match p_tags body with
    | Some t => {| p_title := p_title updates; p_tags := Some t;
                   p_isArchived := p_isArchived updates;
                   p_isPinned := p_isPinned updates;
                   p_settings := p_settings updates |}
    | None => updates
    end in
  let updates :=
    match p_isArchived body with
    | Some b => {| p_title := p_title updates; p_tags := p_tags updates;
                   p_isArchived := Some b;
                   p_isPinned := p_isPinned updates;
                   p_settings := p_settings updates |}
    | None => updates
    end in
  let updates :=
    match p_isPinned body with
    | Some b => {| p_title := p_title updates; p_tags := p_tags updates;
                   p_isArchived := p_isArchived updates;
                   p_isPinned := Some b;
                   p_settings := p_settings updates |}
    | None => updates
    end in
  match p_settings body with
  | Some s => {| p_title := p_title updates; p_tags := p_tags updates;
                 p_isArchived := p_isArchived updates;
                 p_isPinned := p_isPinned updates;
                 p_settings := Some (spread (p_settings updates) s) |}
  | None => updates
  end.

(** Casting of an update by the schema: the [trim] setters. *)
Definition cast_updates (u : patch) : patch :=
  {| p_title := option_map JsString.trim (p_title u);
     p_tags := option_map (List.map JsString.trim) (p_tags u);
     p_isArchived := p_isArchived u;
     p_isPinned := p_isPinned u;
     p_settings := p_settings u |}.

(** [min: 0, max: 2] on [settings.temperature]. *)
Definition valid_temperature (t : Q) : bool :=
  Qle_bool 0 t && Qle_bool t 2.

(** [runValidators: true]: the validators of the paths the update sets. *)
Definition valid_updates (u : patch) : bool :=
  match p_title u with Some t => valid_title t | None => true end
  && match p_settings u with
     | Some s => match temperature s with
                 | Some t => valid_temperature t
                 | None => true
                 end
     | None => true
     end.

(** The update as the database applies it: each key of [updates] replaces
    the stored value of that key, and [updatedAt] is stamped. *)
Definition apply_updates (now : N) (u : patch) (c : conversation) : conversation :=
  {| userId := userId c;
     title := default (title c) (p_title u);
     messages := messages c;
     isArchived := default (isArchived c) (p_isArchived u);
     isPinned := default (isPinned c) (p_isPinned u);
     tags := default (tags c) (p_tags u);
     totalTokens := totalTokens c;
     model := model c;
     settings := default (settings c) (p_settings u);
     createdAt := createdAt c;
     updatedAt := now |}.

(** [Conversation.findOneAndUpdate({ _id, userId }, updates,
    { new: true, runValidators: true })] *)
Definition findOneAndUpdate (now id uid : N) (updates : patch)
    : M (option document) := fun st =>
  let u := cast_updates updates in
  if negb (valid_updates u) then (Thrown ValidationError, st)
  else
    match lookup_owned st id uid with
    | None => (Done None, st)
    | Some c =>
        let c' := apply_updates now u c in
        (Done (Some (hydrate id c')), <[id := c']> st)
    end.

(** [Conversation.findOneAndDelete({ _id, userId })] *)
Definition findOneAndDelete (id uid : N) : M (option document) := fun st =>
  match lookup_owned st id uid with
  | None => (Done None, st)
  | Some c => (Done (Some (hydrate id c)), delete id st)
  end.

(** The [catch] blocks of the routes. *)
Definition catch_500 (e : exn) : failure := InternalError.

Definition catch_validation (e : exn) : failure :=
  match e with
  | ValidationError => ValidationFailure
  | _ => InternalError
  end.

Definition catch_cast (e : exn) : failure :=
  match e with
  | CastError => ValidationFailure
  | _ => InternalError
  end.

Definition catch_validation_cast (e : exn) : failure :=
  match e with
  | ValidationError => ValidationFailure
  | CastError => ValidationFailure
  | _ => InternalError
  end.

(** The completion request of the chat route and what the client returns. *)
Record chat_message := {
  cm_role : string;
  cm_content : string
}.

Record completion_request := {
  cr_model : string;
  cr_messages : list chat_message;
  cr_max_tokens : nat;
  cr_temperature : Q
}.

(** What [openai.chat.completions.create] gives: the text
    [completion.choices[0].message.content], or the [APIError] it throws,
    with the HTTP status the provider reported ([None] for a failure
    without one, such as a lost connection). *)
Inductive completion :=
| Completed (text : string)
| Failed (status : option nat).

Record search_response := {
  sr_page : page_response;
  sr_query : string
}.

Record chat_reply := {
  reply : string;
  reply_conversationId : option N
}.

(** [array.slice(-n)] *)
Definition slice_last {A} (n : nat) (l : list A) : list A :=
  drop (length l - n) l.

(** [msg => ({ role: msg.role, content: msg.content })] *)
Definition reduce_message (msg : message) : chat_message :=
  {| cm_role := role msg; cm_content := content msg |}.

(** The paths given to [router.get]: ['/'], ['/:id'] and a literal such as
    ['/search']. *)
Inductive route_path :=
| RootPath
| ParamPath
| LiteralPath (name : string).

Inductive get_handler :=
| ListHandler
| ItemHandler
| SearchHandler.

(** The GET routes of [routes/conversations.js] in the order the file
    registers them: ['/'] first, then ['/:id'], then ['/search']. *)
Definition get_routes : list (route_path * get_handler) :=
  [ (RootPath, ListHandler);
    (ParamPath, ItemHandler);
    (LiteralPath "search", SearchHandler) ].

(** Does a route path match the segments of a request path (the parts
    between slashes, below the mount point)?  A parameter takes any one
    segment; a literal is compared caselessly, as the router does by
    default. *)
Definition path_matches (p : route_path) (segments : list string) : bool :=
  match p, segments with
  | RootPath, [] => true
  | ParamPath, [s] => JsString.truthy s
  | LiteralPath name, [s] => bool_decide (JsString.lower s = JsString.lower name)
  | _, _ => false
  end.

(** The query string of a GET request. *)
Record get_query := {
  gq_page : option positive;
  gq_limit : option positive;
  gq_archived : option string;
  gq_search : option string;
  gq_q : option string
}.

(** What the router answers: the answer of the handler it ran, or nothing
    when none of its routes matches and the request falls through to the
    application. *)
Inductive get_answer :=
| ListAnswer (r : result page_response)
| ItemAnswer (r : result (N * conversation))
| SearchAnswer (r : result search_response)
| NoRoute.

Section Routes.

(** The regular-expression engine of the database: a pattern compiles to
    a caseless search over a text, or is rejected. *)
Variable regex_compile : string -> option (string -> bool).

(** The completion client [openai.chat.completions.create]. *)
Variable provider : completion_request -> completion.

Definition compile_search (pattern : string) : M (string -> bool) := fun st =>
  match regex_compile pattern with
  | Some test => (Done test, st)
  | None => (Thrown MongoError, st)
  end.

(** [Conversation.find(query)] and [countDocuments(query)] read the
    documents that satisfy the query. *)
Definition find_all (query : N * conversation -> bool)
    : M (list (N * conversation)) := fun st =>
  (Done (List.filter query (map_to_list st)), st).

(** The query of [GET /]: owner, archive flag and, with a search text,
    [$or] of the title and of the message contents. *)
Definition list_query (uid : N) (archived : bool) (re : option (string -> bool))
    (kc : N * conversation) : bool :=
  bool_decide (userId kc.2 = uid)
  && bool_decide (isArchived kc.2 = archived)
  && match re with
     | None => true
     | Some test =>
         test (title kc.2)
         || existsb (fun m => test (content m)) (messages kc.2)
     end.

(** [GET /api/conversations] *)
Definition get_conversations (uid : N) (page limit : option positive)
    (archived search : option string) : handler page_response :=
  try_catch
    (let page := default 1%positive page in
     let limit := default 20%positive limit in
     let search := default "" search in
     let archivedFlag := bool_decide (archived = Some "true") in
     re ← (if JsString.truthy search
           then test ← compile_search search; mret (Some test)
           else mret None);
     found ← find_all (list_query uid archivedFlag re);
     mret (Ok {| conversations := List.map select_item (paginate page limit found);
                 totalPages := ceil_div (length found) (Pos.to_nat limit);
                 currentPage := page;
                 total := length found |}))
    catch_500.

(** [POST /api/conversations]; [new_id] is the ObjectId the constructor
    generates. *)
Definition post_conversation (now new_id uid : N)
    (title initialMessage : option string) : handler summary :=
  try_catch
    (let conversation :=
       new_conversation new_id uid (JsString.or_else title "New Chat") in
     conversation ←
       (match initialMessage with
        | Some text =>
            if JsString.truthy text
            then c ← addMessage now "user" text None conversation;
                 updateTitleFromFirstMessage now c
            else mret conversation
        | None => mret conversation
        end);
     conversation ← save now conversation;
     mret (Ok (getSummary (doc_id conversation) (doc_data conversation))))
    catch_validation.

(** [GET /api/conversations/:id] *)
Definition get_conversation (id uid : N) : handler (N * conversation) :=
  try_catch
    (conversation ← findOne id uid;
     match conversation with
     | None => mret (Err NotFound)
     | Some d => mret (Ok (doc_id d, doc_data d))
     end)
    catch_cast.

(** [PUT /api/conversations/:id] *)
Definition put_conversation (now id uid : N) (body : patch) : handler summary :=
  try_catch
    (let updates := build_updates body in
     conversation ← findOneAndUpdate now id uid updates;
     match conversation with
     | None => mret (Err NotFound)
     | Some d => mret (Ok (getSummary (doc_id d) (doc_data d)))
     end)
    catch_validation_cast.

(** [DELETE /api/conversations/:id] *)
Definition delete_conversation (id uid : N) : handler unit :=
  try_catch
    (conversation ← findOneAndDelete id uid;
     match conversation with
     | None => mret (Err NotFound)
     | Some _ => mret (Ok tt)
     end)
    catch_cast.

(** [POST /api/conversations/:id/messages] *)
Definition post_message (now id uid : N) (role content model : option string)
    : handler summary :=
  try_catch
    (if negb (JsString.truthy_opt role) || negb (JsString.truthy_opt content)
     then mret (Err ValidationFailure)
     else
       let role := default "" role in
       let content := default "" content in
       if negb (valid_role role)
       then mret (Err ValidationFailure)
       else
         conversation ← findOne id uid;
         match conversation with
         | None => mret (Err NotFound)
         | Some d =>
             d ← addMessage now role content model d;
             d ← (if bool_decide (length (messages (doc_data d)) = 1%nat)
                  then updateTitleFromFirstMessage now d
                  else mret d);
             mret (Ok (getSummary (doc_id d) (doc_data d)))
         end)
    catch_validation_cast.

(** The query of [GET /search]: owner and [$or] of the title, the message
    contents and the tags. *)
Definition search_query (uid : N) (test : string -> bool)
    (kc : N * conversation) : bool :=
  bool_decide (userId kc.2 = uid)
  && (test (title kc.2)
      || existsb (fun m => test (content m)) (messages kc.2)
      || existsb test (tags kc.2)).

(** The handler passed to [router.get('/search', ...)], the last route of
    the file; [router_get] below decides which requests it is given. *)
Definition search_conversations (uid : N) (q : option string)
    (page limit : option positive) : handler search_response :=
  try_catch
    (let page := default 1%positive page in
     let limit := default 20%positive limit in
     if negb (JsString.truthy_opt q)
     then mret (Err ValidationFailure)
     else
       let q := default "" q in
       test ← compile_search q;
       found ← find_all (search_query uid test);
       mret (Ok {| sr_page :=
                     {| conversations := List.map select_item (paginate page limit found);
                        totalPages := ceil_div (length found) (Pos.to_nat limit);
                        currentPage := page;
                        total := length found |};
                   sr_query := q |}))
    catch_500.

(** *** The router of the GET requests

    [Conversation.findOne({ _id: req.params.id, userId })] with the
    parameter as the router hands it over: the query casts it, and a text
    that is no ObjectId is a [CastError]. *)
Definition findOne_param (param : string) (uid : N) : M (option document) :=
  match ObjectId.cast param with
  | Some id => findOne id uid
  | None => throw CastError
  end.

(** The handler passed to [router.get('/:id', ...)], on the parameter as
    text. *)
Definition get_by_param (param : string) (uid : N) : handler (N * conversation) :=
  try_catch
    (conversation ← findOne_param param uid;
     match conversation with
     | None => mret (Err NotFound)
     | Some d => mret (Ok (doc_id d, doc_data d))
     end)
    catch_cast.

(** Express runs the first registered route whose path matches; none of
    the handlers calls [next()], so no later route is tried. *)
Definition dispatch_get (segments : list string) : option get_handler :=
  option_map snd (List.find (fun r => path_matches r.1 segments) get_routes).

(** A GET request below [/api/conversations], answered by the router. *)
Definition router_get (segments : list string) (uid : N) (query : get_query)
    (st : store) : get_answer * store :=
  match dispatch_get segments with
  | Some ListHandler =>
      let '(r, st') := get_conversations uid (gq_page query) (gq_limit query)
                         (gq_archived query) (gq_search query) st in
      (ListAnswer r, st')
  | Some ItemHandler =>
      let '(r, st') := get_by_param (hd "" segments) uid st in
      (ItemAnswer r, st')
  | Some SearchHandler =>
      let '(r, st') := search_conversations uid (gq_q query) (gq_page query)
                         (gq_limit query) st in
      (SearchAnswer r, st')
  | None => (NoRoute, st)
  end.

(** *** The chat relay ([POST /api/chat]) *)

(** The [conversationContext] the handler assembles. *)
Definition conversationContext (st : store) (conversationId userId : option N)
    : list chat_message :=
  match conversationId, userId with
  | Some cid, Some uid =>
      match lookup_owned st cid uid with
      | Some c => List.map reduce_message (slice_last 10 (messages c))
      | None => []
      end
  | _, _ => []
  end.

(** The request handed to the completion client. *)
Definition chat_request (st : store) (message : string)
    (conversationId userId : option N) : completion_request :=
  {| cr_model := "gpt-4o-mini";
     cr_messages := conversationContext st conversationId userId
                    ++ [{| cm_role := "user"; cm_content := message |}];
     cr_max_tokens := 1000;
     cr_temperature := 7 # 10 |}.

(** The client is the one [new OpenAI({ apiKey })] builds: the error it
    throws carries the reported status in [error.status] and has no
    [response] field. *)
Definition create_completion (message : string)
    (conversationId userId : option N) : M string := fun st =>
  match provider (chat_request st message conversationId userId) with
  | Completed text => (Done text, st)
  | Failed status => (Thrown (ApiError status None), st)
  end.

(** The test [error.response?.status === code] of the [catch] block of the
    chat route. *)
Definition status_is (e : exn) (code : nat) : bool :=
  match e with
  | ApiError _ (Some s) => (s =? code)%nat
  | _ => false
  end.

Definition catch_chat (e : exn) : failure :=
  if status_is e 401 then AuthFailure
  else if status_is e 429 then RateLimited
  else ProviderError.

Definition post_chat (now : N) (message : option string)
    (conversationId userId : option N) : handler chat_reply :=
  try_catch
    (if negb (JsString.truthy_opt message)
     then mret (Err ValidationFailure)
     else
       let message := default "" message in
       aiResponse ← create_completion message conversationId userId;
       _ ← (match conversationId, userId with
            | Some cid, Some uid =>
                conversation ← findOne cid uid;
                match conversation with
                | Some d =>
                    d ← addMessage now "user" message None d;
                    _ ← addMessage now "assistant" aiResponse None d;
                    mret tt
                | None => mret tt
                end
            | _, _ => mret tt
            end);
       mret (Ok {| reply := aiResponse;
                   reply_conversationId := conversationId |}))
    catch_chat.

End Routes.

(** ** A reference engine for a fragment of the pattern language

    Patterns made of plain characters and the wildcard [.]; every other
    pattern is outside the fragment.  It instantiates the engine the routes
    are parameterised by. *)

Module Fragment.

Inductive atom :=
| Lit (c : ascii)
| AnyChar.

Fixpoint parse (p : string) : option (list atom) :=
  match p with
  | EmptyString => Some []
  | String c p' =>
      if bool_decide (c = "."%char)
      then option_map (cons AnyChar) (parse p')
      else if JsString.is_plain c
           then option_map (cons (Lit c)) (parse p')
           else None
  end.

(** One atom against one character, caselessly; the wildcard matches
    every character but the line feed. *)
Definition atom_matches (a : atom) (c : ascii) : bool :=
  match a with
  | Lit x => bool_decide (JsString.lower_char x = JsString.lower_char c)
  | AnyChar => negb (bool_decide (c = "010"%char))
  end.

Fixpoint match_here (atoms : list atom) (s : string) : bool :=
  match atoms, s with
  | [], _ => true
  | _ :: _, EmptyString => false
  | a :: atoms', String c s' => atom_matches a c && match_here atoms' s'
  end.

Fixpoint search (atoms : list atom) (s : string) : bool :=
  match_here atoms s ||
  match s with
  | EmptyString => false
  | String _ s' => search atoms s'
  end.

Definition compile (p : string) : option (string -> bool) :=
  option_map search (parse p).

End Fragment.

(** ** Vocabulary of the properties *)

(** The filter a search text adds to a listing: none for an empty text,
    the compiled pattern otherwise; [None] when the engine rejects it. *)
Definition search_filter (regex_compile : string -> option (string -> bool))
    (search : option string) : option (option (string -> bool)) :=
  let text := default "" search in
  if JsString.truthy text then option_map Some (regex_compile text) else Some None.

(** The flag [archived === 'true'] requested by a listing. *)
Definition archived_flag (archived : option string) : bool :=
  bool_decide (archived = Some "true").

(** The checks [POST /:id/messages] makes before it looks the conversation
    up. *)
Definition message_body_ok (role content : option string) : bool :=
  JsString.truthy_opt role && JsString.truthy_opt content
  && valid_role (default "" role).

(** The message a successful append stores. *)
Definition stored_message (now : N) (r text : string) (mdl : option string) : message :=
  {| role := r; content := JsString.trim text; timestamp := now; tokens := 0;
     msg_model := default default_model mdl |}.

(** What a successful append leaves in the collection. *)
Definition appended (now id : N) (r text : string) (mdl : option string)
    (c : conversation) : conversation :=
  let d := stamped now (push_message now r text (default default_model mdl)
                                     (hydrate id c)) in
  doc_data (if bool_decide (length (messages (doc_data d)) = 1%nat)
            then stamped now (retitle d) else d).

(** The requests of the service, and the trace semantics of a sequence of
    them. *)
Inductive request :=
| ListConversations (uid : N) (page limit : option positive)
    (archived search : option string)
| CreateConversation (now new_id uid : N) (title initialMessage : option string)
| GetConversation (id uid : N)
| UpdateConversation (now id uid : N) (body : patch)
| DeleteConversation (id uid : N)
| AppendMessage (now id uid : N) (role content model : option string)
| SearchConversations (uid : N) (q : option string) (page limit : option positive)
    (* GET /api/conversations/search?q=..&page=..&limit=.. *)
| Chat (now : N) (message : option string) (conversationId userId : option N).

Section Traces.

Variable regex_compile : string -> option (string -> bool).
Variable provider : completion_request -> completion.

(** The collection a request leaves behind. *)
Definition effect (r : request) (st : store) : store :=
  match r with
  | ListConversations uid page limit archived search =>
      (get_conversations regex_compile uid page limit archived search st).2
  | CreateConversation now new_id uid title initialMessage =>
      (post_conversation now new_id uid title initialMessage st).2
  | GetConversation id uid => (get_conversation id uid st).2
  | UpdateConversation now id uid body => (put_conversation now id uid body st).2
  | DeleteConversation id uid => (delete_conversation id uid st).2
  | AppendMessage now id uid role content model =>
      (post_message now id uid role content model st).2
  | SearchConversations uid q page limit =>
      (router_get regex_compile ["search"] uid
         {| gq_page := page; gq_limit := limit; gq_archived := None;
            gq_search := None; gq_q := q |} st).2
  | Chat now message conversationId userId =>
      (post_chat provider now message conversationId userId st).2
  end.

Definition run (rs : list request) (st : store) : store :=
  fold_left (fun st r => effect r st) rs st.

End Traces.

(** Every conversation of [st'] has a token total of zero or the token
    total it had in [st]. *)
Definition tokens_kept (st st' : store) : Prop :=
  forall id c', st' !! id = Some c' ->
    totalTokens c' = 0%N
    \/ exists c, st !! id = Some c /\ totalTokens c = totalTokens c'.

(** A document in memory is backed by the collection when its token total
    is zero or the one stored under its [_id]. *)
Definition backed (st : store) (d : document) : Prop :=
  totalTokens (doc_data d) = 0%N
  \/ exists c0, st !! doc_id d = Some c0 /\ totalTokens c0 = totalTokens (doc_data d).

(** What [POST /] checks through the schema before it stores anything: the
    title, defaulted and trimmed, is not empty and has at most 100
    characters, and a first message, when one is given, is not blank. *)
Definition create_ok (title initialMessage : option string) : bool :=
  valid_title (JsString.trim (JsString.or_else title "New Chat"))
  && (if JsString.truthy_opt initialMessage
      then JsString.truthy (JsString.trim (default "" initialMessage))
      else true).

(** The document [POST /] stores when nothing fails. *)
Definition created (now uid : N) (title initialMessage : option string)
    : conversation :=
  {| userId := uid;
     title := JsString.trim (JsString.or_else title "New Chat");
     messages := if JsString.truthy_opt initialMessage
                 then [stored_message now "user" (default "" initialMessage) None]
                 else [];
     isArchived := false; isPinned := false; tags := [];
     totalTokens := 0; model := default_model;
     settings := {| temperature := Some default_temperature;
                    maxTokens := Some default_maxTokens |};
     createdAt := now; updatedAt := now |}.

(** One append of a scripted sequence: the time of the call, the role, the
    content and the optional model. *)
Definition entry : Type := N * string * string * option string.

Definition entry_request (id uid : N) (e : entry) : request :=
  let '(now, r, text, mdl) := e in
  AppendMessage now id uid (Some r) (Some text) mdl.

Definition entry_message (e : entry) : message :=
  let '(now, r, text, mdl) := e in stored_message now r text mdl.

(** The entries [POST /:id/messages] accepts: a role of the enum and a
    content that is not blank. *)
Definition entry_ok (e : entry) : Prop :=
  let '(now, r, text, mdl) := e in
  (r = "user" \/ r = "assistant")
  /\ JsString.truthy (JsString.trim text) = true.

(** A stored message as [messageSchema] wants it: a role of the enum and a
    content that is not empty and carries no surrounding white space. *)
Definition message_sound (m : message) : Prop :=
  valid_message m = true /\ content m = JsString.trim (content m).

(** A stored conversation as [conversationSchema] wants it: a trimmed title
    of 1 to 100 characters, sound messages, trimmed tags and a temperature,
    when one is stored, between 0 and 2. *)
Definition well_formed (c : conversation) : Prop :=
  valid_title (title c) = true
  /\ title c = JsString.trim (title c)
  /\ Forall message_sound (messages c)
  /\ Forall (fun t => t = JsString.trim t) (tags c)
  /\ (forall t, temperature (settings c) = Some t -> (0 <= t /\ t <= 2)%Q).

Definition store_well_formed (st : store) : Prop :=
  map_Forall (fun _ c => well_formed c) st.

(** A document in memory whose saved part is sound: the messages are sound
    ones followed by the pushed ones, which are trimmed but not validated
    yet; the title is trimmed, and valid unless it is waiting for
    validation. *)
Definition doc_sound (d : document) : Prop :=
  (title_dirty d = false -> valid_title (title (doc_data d)) = true)
  /\ title (doc_data d) = JsString.trim (title (doc_data d))
  /\ (exists old, messages (doc_data d) = old ++ pushed d
                  /\ Forall message_sound old)
  /\ Forall (fun m => content m = JsString.trim (content m)) (pushed d)
  /\ Forall (fun t => t = JsString.trim t) (tags (doc_data d))
  /\ (forall t, temperature (settings (doc_data d)) = Some t -> (0 <= t /\ t <= 2)%Q).

(** [c'] is a later state of the conversation [c]: same owner, same
    creation time, and the messages of [c] first, in their order. *)
Definition extends (c c' : conversation) : Prop :=
  userId c' = userId c
  /\ createdAt c' = createdAt c
  /\ messages c `prefix_of` messages c'.

(** Every conversation of [st] is still in [st'], in a later state. *)
Definition grows (st st' : store) : Prop :=
  forall id c, st !! id = Some c -> exists c', st' !! id = Some c' /\ extends c c'.

(** A document in memory that was read from the collection is a later
    state of what is stored under its [_id]. *)
Definition tracks (st : store) (d : document) : Prop :=
  doc_new d = false ->
  exists c0, st !! doc_id d = Some c0 /\ extends c0 (doc_data d).

Definition is_delete (r : request) : bool :=
  match r with
  | DeleteConversation _ _ => true
  | _ => false
  end.

(** The items page number [p] of a listing answers ([] when it fails). *)
Definition page_items (regex_compile : string -> option (string -> bool))
    (uid : N) (limit : option positive) (archived search : option string)
    (st : store) (p : nat) : list list_item :=
  match (get_conversations regex_compile uid (Some (Pos.of_nat p)) limit
           archived search st).1 with
  | Ok r => conversations r
  | Err _ => []
  end.

(** ** Concrete data for the examples *)

Module Examples.

(** One conversation of user 7. *)
Definition trip : conversation :=
  {| userId := 7; title := "Trip Planning"; messages := [];
     isArchived := false; isPinned := false; tags := [];
     totalTokens := 0; model := default_model;
     settings := {| temperature := Some default_temperature;
                    maxTokens := Some (2000 # 1) |};
     createdAt := 5; updatedAt := 5 |}.

Definition one_trip : store := {[ 1%N := trip ]}.

(** The first messages of the title examples. *)
Definition sixty_a : string :=
  "aaaaaaaaaaaaaaaaaaaaaaaaaaaaaaaaaaaaaaaaaaaaaaaaaaaaaaaaaaaa".
Definition fifty_a : string :=
  "aaaaaaaaaaaaaaaaaaaaaaaaaaaaaaaaaaaaaaaaaaaaaaaaaa".
Definition forty_a : string :=
  "aaaaaaaaaaaaaaaaaaaaaaaaaaaaaaaaaaaaaaaa".

(** The [i]-th of many conversations of user 7, last updated at [i]. *)
Definition numbered (i : nat) : conversation :=
  {| userId := 7; title := "Chat"; messages := [];
     isArchived := false; isPinned := false; tags := [];
     totalTokens := 0; model := default_model;
     settings := {| temperature := Some default_temperature;
                    maxTokens := Some default_maxTokens |};
     createdAt := N.of_nat i; updatedAt := N.of_nat i |}.

(** Forty-five conversations of user 7, the [i]-th last updated at [i]. *)
Definition forty_five : store :=
  list_to_map (List.map (fun i => (N.of_nat i, numbered i)) (seq 1 45)).

(** A session: create with a first message, append, update, chat. *)
Definition session : list request :=
  [ CreateConversation 10 1 7 None (Some "Plan a trip");
    AppendMessage 11 1 7 (Some "assistant") (Some "Where to?") None;
    UpdateConversation 12 1 7
      {| p_title := Some "Holiday"; p_tags := Some ["travel"];
         p_isArchived := None; p_isPinned := Some true; p_settings := None |};
    Chat 13 (Some "Lisbon") (Some 1%N) (Some 7%N);
    SearchConversations 7 (Some "holiday") None None ].

End Examples.

(** * Properties *)

#[global] Arguments lookup_owned : simpl never.
#[global] Arguments JsString.trim : simpl never.
#[global] Arguments derived_title : simpl never.
#[global] Arguments save : simpl never.
#[global] Arguments valid_role : simpl never.
#[global] Arguments addMessage : simpl never.
#[global] Arguments updateTitleFromFirstMessage : simpl never.

(** Unfolding of the handler monad. *)
Ltac run_monad :=
  unfold try_catch, mbind, M_bind, mret, M_ret, throw, findOne,
    findOneAndUpdate, findOneAndDelete, create_completion, compile_search,
    find_all; simpl.

(** ** Saving *)

Lemma save_new now d (st : store) :
  valid_document d = true ->
  doc_new d = true ->
  st !! doc_id d = None ->
  save now d st = (Done (stamped now d), <[doc_id d := doc_data (stamped now d)]> st).
Proof.
  intros Hv Hn Hf. unfold save. rewrite Hv, Hn. simpl.
  rewrite bool_decide_eq_false_2; [reflexivity|].
  rewrite Hf. by intros [? ?].
Qed.

Lemma save_known now d (st : store) :
  valid_document d = true ->
  doc_new d = false ->
  modified d = true ->
  save now d st = (Done (stamped now d), <[doc_id d := doc_data (stamped now d)]> st).
Proof. intros Hv Hn Hm. unfold save. rewrite Hv, Hn, Hm. reflexivity. Qed.

(** Saving a document that was just saved sends nothing. *)
Lemma save_clean now now' d (st : store) :
  save now' (stamped now d) st = (Done (stamped now d), st).
Proof. reflexivity. Qed.

Lemma modified_push now r text mdl d :
  modified (push_message now r text mdl d) = true.
Proof.
  unfold modified, push_message. simpl.
  destruct (pushed d); simpl; apply orb_true_r.
Qed.

Lemma save_invalid now d (st : store) :
  valid_document d = false ->
  save now d st = (Thrown ValidationError, st).
Proof. intros Hv. unfold save. rewrite Hv. reflexivity. Qed.

(** ** Owner scoping *)

Lemma lookup_owned_Some (st : store) id uid c :
  lookup_owned st id uid = Some c <-> st !! id = Some c /\ userId c = uid.
Proof.
  unfold lookup_owned. destruct (st !! id) as [c0|] eqn:E.
  - case_bool_decide; split.
    + intros [= ->]. auto.
    + intros [[= ->] _]. reflexivity.
    + discriminate.
    + intros [[= ->] ?]. contradiction.
  - split; [discriminate | intros [? _]; discriminate].
Qed.

Lemma lookup_owned_other (st : store) id uid c :
  st !! id = Some c -> userId c <> uid -> lookup_owned st id uid = None.
Proof.
  intros E Hne. unfold lookup_owned. rewrite E.
  case_bool_decide; [contradiction | reflexivity].
Qed.

(** ** The chat relay without a conversation *)

(** C8. A chat call that names no conversation and whose completion
    succeeds answers with the reply text and no conversation identifier,
    and the collection after the call is the collection before it. *)
Theorem detached_chat_frame provider (st : store) now msg uid text :
  JsString.truthy msg = true ->
  provider (chat_request st msg None uid) = Completed text ->
  post_chat provider now (Some msg) None uid st
  = (Ok {| reply := text; reply_conversationId := None |}, st).
Proof.
  intros Hmsg Hprov. unfold post_chat. run_monad.
  rewrite Hmsg. simpl. rewrite Hprov. reflexivity.
Qed.

(** Whatever the completion client does, a chat call that names no
    conversation leaves the collection as it was. *)
Lemma detached_chat_store provider (st : store) now message uid :
  (post_chat provider now message None uid st).2 = st.
Proof.
  unfold post_chat. run_monad.
  destruct (JsString.truthy_opt message); simpl; [|reflexivity].
  destruct (provider _); reflexivity.
Qed.

Lemma detached_chat_frame_witness :
  post_chat (fun _ => Completed "hello") 3 (Some "hi") None (Some 7%N) ∅
  = (Ok {| reply := "hello"; reply_conversationId := None |}, ∅).
Proof.
  apply (detached_chat_frame (fun _ => Completed "hello") ∅ 3 "hi" (Some 7%N) "hello");
    reflexivity.
Defined.

(** ** Classification of completion failures *)

(** C9.  The status the provider reports is not read.  Whatever status the
    completion client fails with, 401 and 429 included, the chat call is
    answered with [ProviderError] (status 500) and the collection is as
    before: the [catch] block tests [error.response?.status], a field the
    error of this client does not have. *)
Theorem provider_status_not_read provider (st : store) now msg cid uid status :
  JsString.truthy msg = true ->
  provider (chat_request st msg cid uid) = Failed status ->
  post_chat provider now (Some msg) cid uid st = (Err ProviderError, st)
  /\ status_code ProviderError = 500%nat.
Proof.
  intros Hmsg Hprov. split; [|reflexivity].
  unfold post_chat. run_monad. rewrite Hmsg. simpl. rewrite Hprov. reflexivity.
Qed.

Lemma provider_status_not_read_witness :
  (post_chat (fun _ => Failed (Some 401%nat)) 3 (Some "hi") None None ∅
   = (Err ProviderError, ∅)
   /\ status_code ProviderError = 500%nat)
  /\ (post_chat (fun _ => Failed (Some 429%nat)) 3 (Some "hi") None None ∅
      = (Err ProviderError, ∅)
      /\ status_code ProviderError = 500%nat).
Proof.
  split.
  - apply (provider_status_not_read (fun _ => Failed (Some 401%nat)) ∅ 3 "hi" None None
             (Some 401%nat)); reflexivity.
  - apply (provider_status_not_read (fun _ => Failed (Some 429%nat)) ∅ 3 "hi" None None
             (Some 429%nat)); reflexivity.
Defined.

(** ** Listing: what the handler computes *)

Lemma get_conversations_run regex_compile uid page limit archived search (st : store) :
  get_conversations regex_compile uid page limit archived search st
  = (match search_filter regex_compile search with
     | None => Err InternalError
     | Some re =>
         let found :=
           List.filter (list_query uid (archived_flag archived) re) (map_to_list st) in
         let page := default 1%positive page in
         let limit := default 20%positive limit in
         Ok {| conversations := List.map select_item (paginate page limit found);
               totalPages := ceil_div (length found) (Pos.to_nat limit);
               currentPage := page;
               total := length found |}
     end, st).
Proof.
  unfold get_conversations, search_filter, archived_flag. run_monad.
  destruct (JsString.truthy (default "" search)); simpl; [|reflexivity].
  destruct (regex_compile (default "" search)); reflexivity.
Qed.

Lemma paginate_subseteq page limit (found : list (N * conversation)) x :
  x ∈ paginate page limit found -> x ∈ found.
Proof.
  unfold paginate. intros H.
  apply subseteq_take in H. apply subseteq_drop in H.
  by rewrite merge_sort_Permutation in H.
Qed.

Lemma elem_of_filter_bool {A} (f : A -> bool) (l : list A) x :
  x ∈ List.filter f l <-> x ∈ l /\ f x = true.
Proof. rewrite !list_elem_of_In. apply filter_In. Qed.

Lemma list_query_owner uid flag re kc :
  list_query uid flag re kc = true ->
  userId kc.2 = uid /\ isArchived kc.2 = flag.
Proof.
  unfold list_query. rewrite !andb_true_iff, !bool_decide_eq_true. tauto.
Qed.

(** ** Ownership isolation *)

Lemma get_conversation_run id uid (st : store) :
  get_conversation id uid st
  = (match lookup_owned st id uid with
     | Some c => Ok (id, c)
     | None => Err NotFound
     end, st).
Proof.
  unfold get_conversation. run_monad.
  destruct (lookup_owned st id uid); reflexivity.
Qed.

Lemma delete_conversation_run id uid (st : store) :
  delete_conversation id uid st
  = match lookup_owned st id uid with
    | Some c => (Ok tt, delete id st)
    | None => (Err NotFound, st)
    end.
Proof.
  unfold delete_conversation. run_monad.
  destruct (lookup_owned st id uid); reflexivity.
Qed.

Lemma put_conversation_run now id uid body (st : store) :
  put_conversation now id uid body st
  = let u := cast_updates (build_updates body) in
    if valid_updates u then
      match lookup_owned st id uid with
      | Some c => (Ok (getSummary id (apply_updates now u c)),
                   <[id := apply_updates now u c]> st)
      | None => (Err NotFound, st)
      end
    else (Err ValidationFailure, st).
Proof.
  unfold put_conversation. run_monad.
  destruct (valid_updates _); simpl; [|reflexivity].
  destruct (lookup_owned st id uid); reflexivity.
Qed.

Lemma post_message_rejected now id uid role content model (st : store) :
  message_body_ok role content = false ->
  post_message now id uid role content model st = (Err ValidationFailure, st).
Proof.
  unfold message_body_ok, post_message. run_monad.
  destruct (JsString.truthy_opt role); simpl; [|reflexivity].
  destruct (JsString.truthy_opt content); simpl; [|reflexivity].
  intros ->. reflexivity.
Qed.

Lemma post_message_missing now id uid role content model (st : store) :
  message_body_ok role content = true ->
  lookup_owned st id uid = None ->
  post_message now id uid role content model st = (Err NotFound, st).
Proof.
  unfold message_body_ok, post_message. run_monad.
  rewrite !andb_true_iff. intros [[-> ->] ->] Hl. simpl.
  rewrite Hl. reflexivity.
Qed.

(** C1, as the handlers implement it.  For a conversation [id] owned by
    [a] and any other user [b]: reading and deleting it as [b] fail with
    [NotFound]; updating it fails with [NotFound] unless the update itself
    is invalid, which is a [ValidationFailure]; appending to it fails with
    [NotFound] unless role or content are rejected, which is a
    [ValidationFailure]; a listing for [b] never fails with [NotFound] and
    never contains the conversation.  No failure carries data, and every
    one of these calls leaves the collection as it was. *)
Theorem ownership_isolation regex_compile (st : store) id c b :
  st !! id = Some c ->
  userId c <> b ->
  get_conversation id b st = (Err NotFound, st)
  /\ delete_conversation id b st = (Err NotFound, st)
  /\ (forall now body,
        put_conversation now id b body st
        = (Err (if valid_updates (cast_updates (build_updates body))
                then NotFound else ValidationFailure), st))
  /\ (forall now role content model,
        post_message now id b role content model st
        = (Err (if message_body_ok role content
                then NotFound else ValidationFailure), st))
  /\ (forall page limit archived search,
        exists r,
          get_conversations regex_compile b page limit archived search st = (r, st)
          /\ r <> Err NotFound
          /\ forall p, r = Ok p -> forall it, it ∈ conversations p -> li_id it <> id).
Proof.
  intros Hc Hne.
  pose proof (lookup_owned_other st id b c Hc Hne) as Hnone.
  repeat split.
  - rewrite get_conversation_run, Hnone. reflexivity.
  - rewrite delete_conversation_run, Hnone. reflexivity.
  - intros now body. rewrite put_conversation_run. simpl.
    destruct (valid_updates _); [rewrite Hnone|]; reflexivity.
  - intros now role content model.
    destruct (message_body_ok role content) eqn:E.
    + by apply post_message_missing.
    + by apply post_message_rejected.
  - intros page limit archived search.
    rewrite get_conversations_run.
    destruct (search_filter regex_compile search) as [re|]; eexists;
      (split; [reflexivity|]); (split; [discriminate|]); [|discriminate].
    intros p [= <-] it. simpl. rewrite list_elem_of_In, in_map_iff.
    intros [[k c'] [<- Hin]] Hk. simpl in Hk. subst k.
    apply list_elem_of_In, paginate_subseteq, elem_of_filter_bool in Hin.
    destruct Hin as [Hin Hq].
    apply elem_of_map_to_list in Hin.
    apply list_query_owner in Hq as [Hq _]. simpl in Hq.
    congruence.
Qed.

(** C1 as worded fails for appending: user 8 appending with the role
    "system" to the conversation of user 7 is answered with a
    [ValidationFailure], not with [NotFound]. *)
Lemma ownership_isolation_counterexample :
  Examples.one_trip !! 1%N = Some Examples.trip
  /\ userId Examples.trip <> 8%N
  /\ post_message 10 1 8 (Some "system") (Some "hi") None Examples.one_trip
     = (Err ValidationFailure, Examples.one_trip)
  /\ (post_message 10 1 8 (Some "system") (Some "hi") None Examples.one_trip).1
     <> Err NotFound.
Proof.
  split; [reflexivity|]. split; [discriminate|].
  assert (H : post_message 10 1 8 (Some "system") (Some "hi") None Examples.one_trip
              = (Err ValidationFailure, Examples.one_trip))
    by (apply post_message_rejected; reflexivity).
  split; [exact H|]. rewrite H. discriminate.
Qed.

Lemma ownership_isolation_witness :
  get_conversation 1 8 Examples.one_trip = (Err NotFound, Examples.one_trip)
  /\ delete_conversation 1 8 Examples.one_trip = (Err NotFound, Examples.one_trip)
  /\ post_message 10 1 8 (Some "user") (Some "hi") None Examples.one_trip
     = (Err NotFound, Examples.one_trip).
Proof.
  destruct (ownership_isolation Fragment.compile Examples.one_trip 1 Examples.trip 8)
    as (Hget & Hdel & _ & Hpost & _).
  - reflexivity.
  - discriminate.
  - split; [exact Hget|]. split; [exact Hdel|].
    exact (Hpost 10%N (Some "user") (Some "hi") None).
Defined.

(** ** Title derivation on creation *)

(** The rule itself does what the contract says. *)
Lemma derived_title_examples :
  derived_title Examples.sixty_a = Examples.fifty_a +:+ "..." /\ derived_title Examples.forty_a = Examples.forty_a.
Proof. split; reflexivity. Qed.

(** Creation without a title never reaches the rule: the constructor has
    already stored the default title, which is truthy. *)
Lemma post_conversation_untitled now new_id uid text (st : store) :
  st !! new_id = None ->
  JsString.truthy text = true ->
  JsString.truthy (JsString.trim text) = true ->
  exists s c,
    post_conversation now new_id uid None (Some text) st = (Ok s, <[new_id := c]> st)
    /\ s_title s = "New Chat" /\ title c = "New Chat".
Proof.
  intros Hfresh Htext Htrim.
  unfold post_conversation. run_monad. rewrite Htext.
  set (d0 := new_conversation new_id uid "New Chat").
  set (d1 := push_message now "user" text default_model d0).
  unfold addMessage. simpl. fold d1.
  rewrite (save_new now d1 st); [|unfold d1, valid_document, valid_message; simpl; by rewrite Htrim|reflexivity|exact Hfresh].
  unfold updateTitleFromFirstMessage.
  assert (Hre : retitle (stamped now d1) = stamped now d1) by reflexivity.
  rewrite Hre, !save_clean.
  eexists _, _. split; [reflexivity|].
  split; reflexivity.
Qed.

(** C2 at its own example.  Creating a conversation without a title from a
    first message of sixty "a" answers, and stores, the title "New Chat";
    the contract asks for fifty "a" followed by "...".  A first message of
    forty "a" gives "New Chat" as well, not the message. *)
Theorem post_conversation_title_not_derived :
  (exists s c,
     post_conversation 10 1 7 None (Some Examples.sixty_a) ∅ = (Ok s, {[ 1%N := c ]})
     /\ s_title s = "New Chat" /\ title c = "New Chat"
     /\ s_title s <> Examples.fifty_a +:+ "...")
  /\ (exists s c,
        post_conversation 10 1 7 None (Some Examples.forty_a) ∅ = (Ok s, {[ 1%N := c ]})
        /\ s_title s = "New Chat" /\ title c = "New Chat"
        /\ s_title s <> Examples.forty_a).
Proof.
  split.
  - destruct (post_conversation_untitled 10 1 7 Examples.sixty_a ∅) as (s & c & H & Hs & Hc);
      [reflexivity..|].
    exists s, c. rewrite insert_empty in H.
    repeat split; [exact H|exact Hs|exact Hc|rewrite Hs; discriminate].
  - destruct (post_conversation_untitled 10 1 7 Examples.forty_a ∅) as (s & c & H & Hs & Hc);
      [reflexivity..|].
    exists s, c. rewrite insert_empty in H.
    repeat split; [exact H|exact Hs|exact Hc|rewrite Hs; discriminate].
Qed.

(** ** Partial update *)

(** Spreading [undefined] and then [s] gives [s] back: the [updates] object
    carries the settings of the request, not a merge with anything. *)
Lemma spread_undefined s : spread None s = s.
Proof. destruct s as [[t|] [m|]]; reflexivity. Qed.

Lemma build_updates_fields body :
  p_title (build_updates body) = p_title body
  /\ p_tags (build_updates body) = p_tags body
  /\ p_isArchived (build_updates body) = p_isArchived body
  /\ p_isPinned (build_updates body) = p_isPinned body
  /\ p_settings (build_updates body) = p_settings body.
Proof.
  destruct body as [[t|] [g|] [a|] [p|] [s|]]; unfold build_updates; simpl;
    rewrite ?spread_undefined; repeat split; reflexivity.
Qed.

(** The top-level fields follow the contract: a field absent from the
    request keeps its stored value, a present one is replaced (after the
    schema's trimming), and the messages, the owner and the token total are
    never touched. *)
Lemma put_conversation_fields now id uid body (st : store) c :
  lookup_owned st id uid = Some c ->
  valid_updates (cast_updates (build_updates body)) = true ->
  exists c',
    put_conversation now id uid body st = (Ok (getSummary id c'), <[id := c']> st)
    /\ title c' = default (title c) (option_map JsString.trim (p_title body))
    /\ tags c' = default (tags c) (option_map (List.map JsString.trim) (p_tags body))
    /\ isArchived c' = default (isArchived c) (p_isArchived body)
    /\ isPinned c' = default (isPinned c) (p_isPinned body)
    /\ settings c' = default (settings c) (p_settings body)
    /\ messages c' = messages c /\ userId c' = userId c
    /\ totalTokens c' = totalTokens c /\ model c' = model c
    /\ createdAt c' = createdAt c /\ updatedAt c' = now.
Proof.
  intros Hc Hv. rewrite put_conversation_run. simpl. rewrite Hv, Hc.
  eexists. split; [reflexivity|].
  destruct (build_updates_fields body) as (Ht & Hg & Ha & Hp & Hs).
  unfold apply_updates, cast_updates. simpl.
  rewrite Ht, Hg, Ha, Hp, Hs. repeat split; reflexivity.
Qed.

(** C3 at a concrete update.  The stored settings are temperature 0.7 and
    maxTokens 2000; a request that supplies only a temperature of 0.5
    succeeds and leaves the stored settings with that temperature and no
    maxTokens at all, so that maxTokens reads back as the schema default
    1000 and the previous value 2000 is lost. *)
Theorem put_settings_replaced_wholesale :
  let body := {| p_title := None; p_tags := None; p_isArchived := None;
                 p_isPinned := None;
                 p_settings := Some {| temperature := Some (1 # 2);
                                       maxTokens := None |} |} in
  maxTokens (settings Examples.trip) = Some (2000 # 1)
  /\ exists s c',
       put_conversation 10 1 7 body Examples.one_trip = (Ok s, {[ 1%N := c' ]})
       /\ settings c' = {| temperature := Some (1 # 2); maxTokens := None |}
       /\ maxTokens_of (settings c') = 1000 # 1
       /\ maxTokens (settings c') <> maxTokens (settings Examples.trip)
       /\ title c' = title Examples.trip.
Proof.
  intros body. split; [reflexivity|].
  destruct (put_conversation_fields 10 1 7 body Examples.one_trip Examples.trip)
    as (c' & Hrun & Ht & _ & _ & _ & Hs & _); [reflexivity..|].
  exists (getSummary 1 c'), c'. split.
  { rewrite Hrun. unfold Examples.one_trip. by rewrite insert_singleton_eq. }
  rewrite Hs, Ht. repeat split; try reflexivity. discriminate.
Qed.

(** ** Trimming and the derived title *)

Section Trim.
Import JsString.

Lemma trim_start_head s x r :
  trim_start s = String x r -> is_white x = false.
Proof.
  induction s as [|c s IH]; simpl; [discriminate|].
  destruct (is_white c) eqn:E; [exact IH|].
  intros [= <- <-]. exact E.
Qed.

Lemma trim_end_head x r :
  is_white x = false -> exists r', trim_end (String x r) = String x r'.
Proof.
  intros Hx. simpl. destruct (trim_end r) as [|y r'].
  - rewrite Hx. by eexists.
  - by eexists.
Qed.

Lemma trim_head s x r : trim s = String x r -> is_white x = false.
Proof.
  unfold trim. destruct (trim_start s) as [|y r0] eqn:E; [discriminate|].
  pose proof (trim_start_head _ _ _ E) as Hy.
  destruct (trim_end_head y r0 Hy) as [r' ->]. by intros [= <- _].
Qed.

Lemma trim_keeps_head x r :
  is_white x = false -> exists r', trim (String x r) = String x r'.
Proof.
  intros Hx. unfold trim. simpl. rewrite Hx. by apply trim_end_head.
Qed.

Lemma trim_start_length s : (String.length (trim_start s) <= String.length s)%nat.
Proof.
  induction s as [|c s IH]; simpl; [lia|].
  destruct (is_white c); simpl; lia.
Qed.

Lemma trim_end_length s : (String.length (trim_end s) <= String.length s)%nat.
Proof.
  induction s as [|c s IH]; simpl; [lia|].
  destruct (trim_end s); [destruct (is_white c)|]; simpl in *; lia.
Qed.

Lemma trim_length s : (String.length (trim s) <= String.length s)%nat.
Proof.
  unfold trim. etransitivity; [apply trim_end_length|apply trim_start_length].
Qed.

Lemma substring_length_le n s : (String.length (substring 0 n s) <= n)%nat.
Proof.
  revert s. induction n as [|n IH]; intros [|c s]; simpl; try lia.
  specialize (IH s). lia.
Qed.

Lemma append_length s t :
  String.length (s +:+ t) = (String.length s + String.length t)%nat.
Proof. induction s as [|c s IH]; simpl; [reflexivity|by rewrite IH]. Qed.

Lemma derived_title_length c : (String.length (derived_title c) <= 53)%nat.
Proof.
  unfold derived_title. rewrite append_length.
  pose proof (substring_length_le 50 c).
  destruct (50 <? String.length c)%nat; simpl; lia.
Qed.

Lemma derived_title_head x r : exists r', derived_title (String x r) = String x r'.
Proof. unfold derived_title. simpl. by eexists. Qed.

(** A title derived from a stored (trimmed, non-empty) content always
    passes the title validators. *)
Lemma derived_title_valid text :
  truthy (trim text) = true ->
  valid_title (trim (derived_title (trim text))) = true.
Proof.
  intros Ht. destruct (trim text) as [|x r] eqn:E; [discriminate|].
  pose proof (trim_head _ _ _ E) as Hx.
  destruct (derived_title_head x r) as [r' Hd].
  destruct (trim_keeps_head x r' Hx) as [r'' Hr].
  unfold valid_title. rewrite Hd at 1. rewrite Hr. simpl.
  apply Nat.leb_le.
  pose proof (trim_length (derived_title (String x r))).
  pose proof (derived_title_length (String x r)). lia.
Qed.

End Trim.

(** ** Appending a message *)

Lemma message_body_ok_spec role content :
  message_body_ok role content = true
  <-> exists r text,
        role = Some r /\ content = Some text
        /\ (r = "user" \/ r = "assistant") /\ text <> "".
Proof.
  unfold message_body_ok, valid_role. split.
  - destruct role as [r|], content as [text|]; simpl;
      rewrite ?andb_true_iff, ?orb_true_iff, ?bool_decide_eq_true;
      try discriminate; try (intros [[? ?] ?]; discriminate).
    intros [[_ Ht] Hr]. exists r, text. repeat split; [exact Hr|].
    intros ->. discriminate.
  - intros (r & text & -> & -> & Hr & Ht). simpl.
    assert (Hr' : JsString.truthy r = true)
      by (destruct Hr as [-> | ->]; reflexivity).
    assert (Ht' : JsString.truthy text = true)
      by (destruct text; [congruence|reflexivity]).
    rewrite Hr', Ht'. simpl.
    apply orb_true_iff. rewrite !bool_decide_eq_true. exact Hr.
Qed.

Lemma retitle_frame d :
  doc_id (retitle d) = doc_id d /\ doc_new (retitle d) = doc_new d
  /\ pushed (retitle d) = pushed d
  /\ messages (doc_data (retitle d)) = messages (doc_data d)
  /\ userId (doc_data (retitle d)) = userId (doc_data d)
  /\ totalTokens (doc_data (retitle d)) = totalTokens (doc_data d)
  /\ model (doc_data (retitle d)) = model (doc_data d)
  /\ settings (doc_data (retitle d)) = settings (doc_data d)
  /\ isArchived (doc_data (retitle d)) = isArchived (doc_data d)
  /\ isPinned (doc_data (retitle d)) = isPinned (doc_data d)
  /\ tags (doc_data (retitle d)) = tags (doc_data d)
  /\ createdAt (doc_data (retitle d)) = createdAt (doc_data d).
Proof.
  unfold retitle.
  destruct (List.find _ _); [destruct (negb _)|]; simpl; repeat split; reflexivity.
Qed.

(** A conversation with a truthy title is never retitled. *)
Lemma retitle_titled d :
  JsString.truthy (title (doc_data d)) = true -> retitle d = d.
Proof.
  intros Ht. unfold retitle. rewrite Ht. simpl.
  destruct (List.find _ _); reflexivity.
Qed.

(** The rule either leaves the document alone or marks its title as set. *)
Lemma retitle_cases d :
  retitle d = d \/ title_dirty (retitle d) = true.
Proof.
  unfold retitle.
  destruct (List.find _ _); [destruct (negb _)|]; simpl; auto.
Qed.

Lemma retitle_valid now r text mdl id c :
  messages c = [] ->
  JsString.truthy (JsString.trim text) = true ->
  valid_document
    (retitle (stamped now (push_message now r text mdl (hydrate id c)))) = true.
Proof.
  intros Hm Ht. unfold retitle. simpl. rewrite Hm. simpl.
  case_bool_decide; [|reflexivity].
  destruct (negb (JsString.truthy (title c))); [|reflexivity].
  unfold valid_document. simpl. rewrite andb_true_r.
  by apply derived_title_valid.
Qed.

Lemma post_message_found now id uid r text mdl (st : store) c :
  (r = "user" \/ r = "assistant") ->
  text <> "" ->
  lookup_owned st id uid = Some c ->
  post_message now id uid (Some r) (Some text) mdl st
  = if JsString.truthy (JsString.trim text) then
      let d := stamped now (push_message now r text (default default_model mdl)
                                         (hydrate id c)) in
      let d := if bool_decide (length (messages (doc_data d)) = 1%nat)
               then stamped now (retitle d) else d in
      (Ok (getSummary id (doc_data d)), <[id := doc_data d]> st)
    else (Err ValidationFailure, st).
Proof.
  intros Hr Ht Hc.
  assert (Hok : message_body_ok (Some r) (Some text) = true).
  { apply message_body_ok_spec. by exists r, text. }
  unfold message_body_ok in Hok. rewrite !andb_true_iff in Hok.
  destruct Hok as [[Hr1 Ht1] Hr2]. simpl in Hr1, Ht1, Hr2.
  set (d1 := push_message now r text (default default_model mdl) (hydrate id c)).
  assert (Hv : valid_document d1 = JsString.truthy (JsString.trim text)).
  { unfold d1, valid_document, valid_message. simpl. rewrite Hr2. simpl.
    apply andb_true_r. }
  match goal with |- _ = ?R => set (rhs := R) end.
  unfold post_message. run_monad. rewrite Hr1, Ht1, Hr2. simpl.
  rewrite Hc. simpl. unfold addMessage. fold d1. subst rhs.
  destruct (JsString.truthy (JsString.trim text)) eqn:Htrim.
  - rewrite (save_known now d1 st Hv eq_refl (modified_push _ _ _ _ _)).
    cbv beta iota zeta. change (doc_id d1) with id.
    destruct (bool_decide (length (messages (doc_data (stamped now d1))) = 1%nat)) eqn:Hone.
    + unfold updateTitleFromFirstMessage.
      assert (Hm : messages c = []).
      { apply bool_decide_eq_true in Hone. simpl in Hone.
        rewrite length_app in Hone. simpl in Hone.
        destruct (messages c); [reflexivity|simpl in Hone; lia]. }
      destruct (retitle_frame (stamped now d1)) as (Hid & Hnew & _).
      destruct (retitle_cases (stamped now d1)) as [Hre | Hdirty].
      * rewrite Hre, save_clean. reflexivity.
      * rewrite save_known.
        -- change (doc_id (stamped now (retitle (stamped now d1))))
             with (doc_id (retitle (stamped now d1))).
           rewrite Hid. change (doc_id (stamped now d1)) with id.
           by rewrite insert_insert_eq.
        -- unfold d1. by apply retitle_valid.
        -- rewrite Hnew. reflexivity.
        -- unfold modified. by rewrite Hdirty.
    + reflexivity.
  - rewrite save_invalid by exact Hv. reflexivity.
Qed.

Lemma appended_fields now id r text mdl c :
  let c' := appended now id r text mdl c in
  messages c' = messages c ++ [stored_message now r text mdl]
  /\ userId c' = userId c /\ totalTokens c' = totalTokens c
  /\ model c' = default default_model mdl
  /\ settings c' = settings c /\ isArchived c' = isArchived c
  /\ isPinned c' = isPinned c /\ tags c' = tags c
  /\ createdAt c' = createdAt c /\ updatedAt c' = now
  /\ (JsString.truthy (title c) = true -> title c' = title c).
Proof.
  unfold appended.
  remember (stamped now (push_message now r text (default default_model mdl)
                                      (hydrate id c))) as d eqn:Hd.
  assert (Hfields :
    messages (doc_data d) = messages c ++ [stored_message now r text mdl]
    /\ userId (doc_data d) = userId c /\ totalTokens (doc_data d) = totalTokens c
    /\ model (doc_data d) = default default_model mdl
    /\ settings (doc_data d) = settings c /\ isArchived (doc_data d) = isArchived c
    /\ isPinned (doc_data d) = isPinned c /\ tags (doc_data d) = tags c
    /\ createdAt (doc_data d) = createdAt c /\ updatedAt (doc_data d) = now
    /\ title (doc_data d) = title c /\ doc_new d = false).
  { subst d. split_and!; reflexivity. }
  destruct Hfields as (Fm & Fu & Ft & Fmo & Fs & Fa & Fp & Fg & Fc & Fup & Fti & Fn).
  destruct (retitle_frame d) as (_ & Hn & _ & Hm & Hu & Ht & Hmo & Hs & Ha & Hp & Hg & Hc).
  case_bool_decide.
  - remember (retitle d) as d' eqn:Hd'. simpl. rewrite Hn, Fn.
    simpl. rewrite Hm, Hu, Ht, Hmo, Hs, Ha, Hp, Hg, Hc.
    split_and!; try assumption; try reflexivity.
    intros Htitle. subst d'. rewrite retitle_titled; [exact Fti|].
    by rewrite Fti.
  - split_and!; try assumption. intros _. exact Fti.
Qed.

(** C4, as the handler and the schema implement it.  A role outside
    user/assistant, or a missing or empty content, is a ValidationFailure
    and the collection is unchanged.  Otherwise a conversation that is not
    there under this owner is NotFound, unchanged again; a content that is
    blank once trimmed is a ValidationFailure, unchanged again; and in the
    remaining case exactly one message, with that role and the trimmed
    content, is appended after the messages already stored, and no other
    conversation is written. *)
Theorem append_validation now id uid role content mdl (st : store) :
  ((forall r, role = Some r -> r <> "user" /\ r <> "assistant")
   \/ content = None \/ content = Some "" ->
   post_message now id uid role content mdl st = (Err ValidationFailure, st))
  /\ (forall r text,
        role = Some r -> content = Some text ->
        (r = "user" \/ r = "assistant") -> text <> "" ->
        (lookup_owned st id uid = None ->
         post_message now id uid role content mdl st = (Err NotFound, st))
        /\ (forall c,
              lookup_owned st id uid = Some c ->
              (JsString.truthy (JsString.trim text) = false ->
               post_message now id uid role content mdl st
               = (Err ValidationFailure, st))
              /\ (JsString.truthy (JsString.trim text) = true ->
                  exists c',
                    post_message now id uid role content mdl st
                    = (Ok (getSummary id c'), <[id := c']> st)
                    /\ messages c'
                       = messages c ++ [stored_message now r text mdl]
                    /\ userId c' = userId c
                    /\ totalTokens c' = totalTokens c
                    /\ settings c' = settings c
                    /\ isArchived c' = isArchived c
                    /\ isPinned c' = isPinned c
                    /\ tags c' = tags c))).
Proof.
  split.
  - intros Hbad. apply post_message_rejected.
    destruct (message_body_ok role content) eqn:E; [|reflexivity].
    apply message_body_ok_spec in E as (r & text & -> & -> & Hr & Ht).
    destruct Hbad as [Hbad | [Hbad | Hbad]]; [|discriminate|congruence].
    destruct (Hbad r eq_refl) as [H1 H2]. destruct Hr; contradiction.
  - intros r text -> -> Hr Ht. split.
    + intros Hnone. apply post_message_missing; [|exact Hnone].
      apply message_body_ok_spec. by exists r, text.
    + intros c Hc. rewrite (post_message_found now id uid r text mdl st c Hr Ht Hc).
      split; intros ->; [reflexivity|].
      exists (appended now id r text mdl c). split; [reflexivity|].
      destruct (appended_fields now id r text mdl c)
        as (Hm & Hu & Htt & _ & Hs & Ha & Hp & Hg & _).
      repeat split; assumption.
Qed.

Lemma append_validation_witness :
  post_message 10 1 7 (Some "system") (Some "hi") None Examples.one_trip
  = (Err ValidationFailure, Examples.one_trip)
  /\ exists c',
       post_message 10 1 7 (Some "user") (Some " hi ") None Examples.one_trip
       = (Ok (getSummary 1 c'), <[1%N := c']> Examples.one_trip)
       /\ messages c' = [stored_message 10 "user" " hi " None]
       /\ content (stored_message 10 "user" " hi " None) = "hi".
Proof.
  split.
  - apply (append_validation 10 1 7 (Some "system") (Some "hi") None Examples.one_trip).
    left. intros r [= <-]. split; discriminate.
  - destruct (append_validation 10 1 7 (Some "user") (Some " hi ") None Examples.one_trip)
      as [_ H].
    destruct (H "user" " hi " eq_refl eq_refl) as [_ H'];
      [by left | discriminate |].
    destruct (H' Examples.trip eq_refl) as [_ H''].
    destruct (H'' eq_refl) as (c' & Hrun & Hm & _).
    exists c'. repeat split; [exact Hrun | exact Hm].
Defined.

Lemma post_message_blank :
  post_message 10 1 7 (Some "user") (Some " ") None Examples.one_trip
  = (Err ValidationFailure, Examples.one_trip).
Proof.
  rewrite (post_message_found 10 1 7 "user" " " None Examples.one_trip Examples.trip);
    [reflexivity | by left | discriminate | reflexivity].
Qed.

(** C4 as worded fails on a blank content: the role is "user" and the
    content " " is not empty, the conversation exists under the caller, and
    yet the call is a ValidationFailure and no message is appended. *)
Lemma append_validation_counterexample :
  lookup_owned Examples.one_trip 1 7 = Some Examples.trip
  /\ valid_role "user" = true
  /\ " " <> ""
  /\ post_message 10 1 7 (Some "user") (Some " ") None Examples.one_trip
     = (Err ValidationFailure, Examples.one_trip)
  /\ ~ exists c' m,
         (post_message 10 1 7 (Some "user") (Some " ") None Examples.one_trip).2 !! 1%N
         = Some c'
         /\ messages c' = messages Examples.trip ++ [m].
Proof.
  assert (H : post_message 10 1 7 (Some "user") (Some " ") None Examples.one_trip
              = (Err ValidationFailure, Examples.one_trip)).
  { exact post_message_blank. }
  split_and!; [reflexivity | reflexivity | discriminate | exact H |].
  rewrite H. simpl. intros (c' & m & Hc & Hm).
  change (Some Examples.trip = Some c') in Hc. injection Hc as <-.
  simpl in Hm. by destruct (messages Examples.trip).
Qed.

(** ** Routing of the GET requests *)

Lemma get_by_param_cast param id uid :
  ObjectId.cast param = Some id ->
  get_by_param param uid = get_conversation id uid.
Proof.
  intros Hc. unfold get_by_param, get_conversation, findOne_param.
  by rewrite Hc.
Qed.

Lemma get_by_param_rejected param uid (st : store) :
  ObjectId.cast param = None ->
  get_by_param param uid st = (Err ValidationFailure, st).
Proof.
  intros Hc. unfold get_by_param, findOne_param. rewrite Hc. reflexivity.
Qed.

(** A segment that is not empty is taken by [/:id]: the route [/search],
    registered after it, is never the first match. *)
Lemma dispatch_get_cases segments :
  dispatch_get segments
  = match segments with
    | [] => Some ListHandler
    | [s] => if JsString.truthy s then Some ItemHandler else None
    | _ => None
    end.
Proof.
  unfold dispatch_get, get_routes.
  destruct segments as [|s [|s' rest]]; [reflexivity| |reflexivity].
  cbn [List.find path_matches fst snd].
  destruct (JsString.truthy s) eqn:Hs; [reflexivity|].
  destruct s; [reflexivity|discriminate].
Qed.

(** Every GET request leaves the collection as it was. *)
Lemma router_get_store regex_compile segments uid query (st : store) :
  (router_get regex_compile segments uid query st).2 = st.
Proof.
  unfold router_get. destruct (dispatch_get segments) as [[]|]; [| | |reflexivity].
  - unfold get_conversations. run_monad.
    destruct (JsString.truthy _); simpl; [|reflexivity].
    destruct (regex_compile _); reflexivity.
  - unfold get_by_param, findOne_param. run_monad.
    destruct (ObjectId.cast _); simpl; [|reflexivity].
    destruct (lookup_owned _ _ _); reflexivity.
  - unfold search_conversations. run_monad.
    destruct (JsString.truthy_opt _); simpl; [|reflexivity].
    destruct (regex_compile _); reflexivity.
Qed.

(** C5.  The search handler is never run.  The router tries [/:id] before
    [/search], so a GET of [/search] is given to the handler of [/:id] with
    the parameter "search"; the text is no ObjectId, the query throws a
    [CastError], and the answer is a ValidationFailure (400, "Invalid
    conversation ID") whatever the query string and the collection, which
    is left as it was.  In particular the search for "trip" in a collection
    that holds "Trip Planning" returns no page; and no path at all is
    routed to the search handler. *)
Theorem search_route_shadowed regex_compile uid query (st : store) :
  dispatch_get ["search"] = Some ItemHandler
  /\ router_get regex_compile ["search"] uid query st
     = (ItemAnswer (Err ValidationFailure), st)
  /\ router_get regex_compile ["search"] 7
       {| gq_page := None; gq_limit := None; gq_archived := None;
          gq_search := None; gq_q := Some "trip" |} Examples.one_trip
     = (ItemAnswer (Err ValidationFailure), Examples.one_trip)
  /\ title Examples.trip = "Trip Planning"
  /\ Examples.one_trip !! 1%N = Some Examples.trip
  /\ (forall segments, dispatch_get segments <> Some SearchHandler).
Proof.
  assert (Hrun : forall u qy (s : store),
    router_get regex_compile ["search"] u qy s
    = (ItemAnswer (Err ValidationFailure), s)).
  { intros u qy s. unfold router_get. rewrite dispatch_get_cases.
    cbn [JsString.truthy hd].
    by rewrite get_by_param_rejected. }
  split_and!; [reflexivity|apply Hrun|apply Hrun|reflexivity|reflexivity|].
  intros segments. rewrite dispatch_get_cases.
  destruct segments as [|s [|s' rest]]; [discriminate| |discriminate].
  destruct (JsString.truthy s); discriminate.
Qed.

(** ** Listing: pagination and order *)

#[global] Instance newer_first_trans : Transitive newer_first.
Proof. intros x y z. unfold newer_first. lia. Qed.

#[global] Instance newer_first_total : Total newer_first.
Proof. intros x y. unfold newer_first. lia. Qed.

Lemma existsb_elem_of {A} (f : A -> bool) (l : list A) :
  existsb f l = true <-> exists x, x ∈ l /\ f x = true.
Proof.
  rewrite existsb_exists. split; intros (x & H1 & H2); exists x;
    (split; [by apply list_elem_of_In|done]).
Qed.

(** [ceil_div] is the ceiling of the quotient. *)
Lemma ceil_div_spec total limit :
  (0 < limit)%nat ->
  (total <= ceil_div total limit * limit
   /\ ceil_div total limit * limit < total + limit)%nat.
Proof.
  intros Hl. unfold ceil_div.
  pose proof (Nat.div_mod_eq (total + limit - 1) limit) as Hdm.
  pose proof (Nat.mod_upper_bound (total + limit - 1) limit ltac:(lia)) as Hmod.
  nia.
Qed.

Lemma list_query_spec uid flag re kc :
  list_query uid flag re kc = true
  <-> userId kc.2 = uid /\ isArchived kc.2 = flag
      /\ match re with
         | None => True
         | Some test =>
             test (title kc.2) = true
             \/ exists m, m ∈ messages kc.2 /\ test (content m) = true
         end.
Proof.
  unfold list_query. rewrite !andb_true_iff, !bool_decide_eq_true.
  destruct re as [test|].
  - rewrite orb_true_iff, existsb_elem_of. tauto.
  - tauto.
Qed.

(** C6.  A listing whose search text the engine rejects is answered with
    an internal error.  Every other listing (no search text, an empty one,
    or one that compiles) succeeds and leaves the collection alone; the
    documents found are exactly those of the caller whose archive flag is
    the requested one (and that match the search); the reported total is
    their number and the reported number of pages is the ceiling of total
    over limit; the page is the run of at most [limit] documents that
    starts at offset (page - 1) * limit of the found documents ordered by
    descending [updatedAt], each given by its id, title, creation and
    update times, archive and pin flags and tags.  With 45 documents found
    and a limit of 20 there are 3 pages and page 3 holds 5 items. *)
Theorem list_pagination regex_compile uid page limit archived search (st : store) :
  let p := Pos.to_nat (default 1%positive page) in
  let l := Pos.to_nat (default 20%positive limit) in
  match search_filter regex_compile search with
  | None =>
      get_conversations regex_compile uid page limit archived search st
      = (Err InternalError, st)
  | Some re =>
      let found :=
        List.filter (list_query uid (archived_flag archived) re) (map_to_list st) in
      let sorted := merge_sort newer_first found in
      let items := take l (drop ((p - 1) * l) sorted) in
      get_conversations regex_compile uid page limit archived search st
      = (Ok {| conversations :=
                 List.map (fun kc : N * conversation =>
                             {| li_id := kc.1;
                                li_title := title kc.2;
                                li_createdAt := createdAt kc.2;
                                li_updatedAt := updatedAt kc.2;
                                li_isArchived := isArchived kc.2;
                                li_isPinned := isPinned kc.2;
                                li_tags := tags kc.2 |}) items;
               totalPages := ceil_div (length found) l;
               currentPage := default 1%positive page;
               total := length found |}, st)
      /\ (forall id c,
            (id, c) ∈ found
            <-> st !! id = Some c /\ userId c = uid
                /\ isArchived c = archived_flag archived
                /\ match re with
                   | None => True
                   | Some test =>
                       test (title c) = true
                       \/ exists m, m ∈ messages c /\ test (content m) = true
                   end)
      /\ sorted ≡ₚ found
      /\ StronglySorted newer_first sorted
      /\ (length found <= ceil_div (length found) l * l < length found + l)%nat
      /\ length items = (l `min` (length found - (p - 1) * l))%nat
      /\ (length found = 45%nat -> l = 20%nat ->
          ceil_div (length found) l = 3%nat
          /\ (p = 3%nat -> length items = 5%nat))
  end.
Proof.
  intros p l. rewrite get_conversations_run.
  destruct (search_filter regex_compile search) as [re|]; [|reflexivity].
  intros found sorted items.
  assert (Hlen : length sorted = length found).
  { unfold sorted. by rewrite merge_sort_Permutation. }
  assert (Hitems : length items = (l `min` (length found - (p - 1) * l))%nat).
  { unfold items. rewrite length_take, length_drop, Hlen. reflexivity. }
  split_and!.
  - reflexivity.
  - intros id c. unfold found.
    rewrite elem_of_filter_bool, elem_of_map_to_list, list_query_spec. simpl. tauto.
  - apply merge_sort_Permutation.
  - apply StronglySorted_merge_sort; apply _.
  - apply ceil_div_spec. unfold l. lia.
  - apply ceil_div_spec. unfold l. lia.
  - exact Hitems.
  - intros H45 H20. split.
    + rewrite H45, H20. reflexivity.
    + intros H3. rewrite Hitems, H45, H20, H3. reflexivity.
Qed.

Lemma list_pagination_witness :
  exists r,
    get_conversations Fragment.compile 7 (Some 3%positive) (Some 20%positive)
      None None Examples.forty_five = (Ok r, Examples.forty_five)
    /\ total r = 45%nat /\ totalPages r = 3%nat /\ currentPage r = 3%positive
    /\ conversations r
       = List.map (fun i : N =>
                     {| li_id := i; li_title := "Chat"; li_createdAt := i;
                        li_updatedAt := i; li_isArchived := false;
                        li_isPinned := false; li_tags := [] |})
                  [5; 4; 3; 2; 1]%N.
Proof.
  pose proof (list_pagination Fragment.compile 7 (Some 3%positive) (Some 20%positive)
                None None Examples.forty_five) as H.
  cbv beta iota zeta delta [search_filter default JsString.truthy] in H.
  destruct H as (Hrun & _ & _ & _ & _ & _ & H45).
  assert (Hf : length (List.filter (list_query 7 (archived_flag None) None)
                                   (map_to_list Examples.forty_five)) = 45%nat)
    by (vm_compute; reflexivity).
  destruct (H45 Hf eq_refl) as [Htp _].
  eexists. split; [exact Hrun|].
  split_and!; [exact Hf | exact Htp | reflexivity | vm_compute; reflexivity].
Defined.

(** The claim fails on a listing whose search text is not a pattern: an
    unclosed group is rejected by the engine, the query throws and the
    call is answered with status 500, without a page. *)
Lemma list_pagination_counterexample :
  Fragment.compile "(" = None
  /\ get_conversations Fragment.compile 7 None None None (Some "(") Examples.one_trip
     = (Err InternalError, Examples.one_trip)
  /\ status_code InternalError = 500%nat.
Proof. split_and!; reflexivity. Qed.

(** ** The chat relay with a conversation *)

Lemma addMessage_clean now r text mdl d (st : store) :
  doc_new d = false -> title_dirty d = false -> pushed d = [] ->
  valid_role r = true ->
  addMessage now r text mdl d st
  = if JsString.truthy (JsString.trim text)
    then (Done (stamped now (push_message now r text (default default_model mdl) d)),
          <[doc_id d := doc_data (stamped now (push_message now r text
                                                 (default default_model mdl) d))]> st)
    else (Thrown ValidationError, st).
Proof.
  intros Hn Ht Hp Hr. unfold addMessage.
  set (d1 := push_message now r text (default default_model mdl) d).
  assert (Hv : valid_document d1 = JsString.truthy (JsString.trim text)).
  { unfold d1, valid_document, valid_message, push_message. simpl.
    rewrite Ht, Hp. simpl. rewrite Hr. simpl. apply andb_true_r. }
  destruct (JsString.truthy (JsString.trim text)).
  - exact (save_known now d1 st Hv Hn (modified_push _ _ _ _ _)).
  - exact (save_invalid now d1 st Hv).
Qed.

Lemma slice_last_length {A} n (l : list A) :
  length (slice_last n l) = (n `min` length l)%nat.
Proof. unfold slice_last. rewrite length_drop. lia. Qed.

Lemma slice_last_suffix {A} n (l : list A) :
  take (length l - n) l ++ slice_last n l = l.
Proof. unfold slice_last. apply take_drop. Qed.

Lemma post_chat_attached provider now msg cid uid (st : store) c text :
  lookup_owned st cid uid = Some c ->
  JsString.truthy msg = true ->
  provider (chat_request st msg (Some cid) (Some uid)) = Completed text ->
  post_chat provider now (Some msg) (Some cid) (Some uid) st
  = if JsString.truthy (JsString.trim msg) then
      let d1 := stamped now (push_message now "user" msg default_model (hydrate cid c)) in
      if JsString.truthy (JsString.trim text) then
        let d2 := stamped now (push_message now "assistant" text default_model d1) in
        (Ok {| reply := text; reply_conversationId := Some cid |},
         <[cid := doc_data d2]> st)
      else (Err ProviderError, <[cid := doc_data d1]> st)
    else (Err ProviderError, st).
Proof.
  intros Hc Hmsg Hprov.
  match goal with |- _ = ?R => set (rhs := R) end.
  unfold post_chat. run_monad. rewrite Hmsg. simpl. rewrite Hprov, Hc. simpl.
  rewrite (addMessage_clean now "user" msg None (hydrate cid c) st) by reflexivity.
  subst rhs. simpl (default default_model None).
  destruct (JsString.truthy (JsString.trim msg)); [|reflexivity].
  set (d1 := stamped now (push_message now "user" msg default_model (hydrate cid c))).
  rewrite (addMessage_clean now "assistant" text None d1) by reflexivity.
  simpl (default default_model None).
  destruct (JsString.truthy (JsString.trim text)); [|reflexivity].
  cbv beta iota zeta. change (doc_id d1) with cid. change (doc_id (hydrate cid c)) with cid.
  by rewrite insert_insert_eq.
Qed.

(** C7, as the handler and the schema implement it.  For a conversation
    found under the given owner, the request sent to the completion client
    carries the last ten stored messages at most, oldest first and reduced
    to role and content, followed by the new user message.  When the
    completion succeeds and neither the user message nor the reply is
    blank once trimmed, the stored sequence grows by exactly two messages,
    the (trimmed) user message and then the (trimmed) reply, and the call
    answers with the reply and the conversation identifier.  The two are
    saved one after the other: a blank reply leaves the user message stored
    alone and the call fails, and a blank user message stores nothing and
    the call fails. *)
Theorem chat_relay_context_growth provider now msg cid uid (st : store) c :
  lookup_owned st cid uid = Some c ->
  JsString.truthy msg = true ->
  let context := List.map reduce_message (slice_last 10 (messages c)) in
  let request := chat_request st msg (Some cid) (Some uid) in
  cr_messages request = context ++ [{| cm_role := "user"; cm_content := msg |}]
  /\ (length context <= 10)%nat
  /\ length context = (10 `min` length (messages c))%nat
  /\ take (length (messages c) - 10) (messages c) ++ slice_last 10 (messages c)
     = messages c
  /\ forall text,
       provider request = Completed text ->
       (JsString.truthy (JsString.trim msg) = true ->
        JsString.truthy (JsString.trim text) = true ->
        exists c',
          post_chat provider now (Some msg) (Some cid) (Some uid) st
          = (Ok {| reply := text; reply_conversationId := Some cid |},
             <[cid := c']> st)
          /\ messages c'
             = messages c ++ [stored_message now "user" msg None;
                              stored_message now "assistant" text None]
          /\ length (messages c') = (length (messages c) + 2)%nat)
       /\ (JsString.truthy (JsString.trim msg) = true ->
           JsString.truthy (JsString.trim text) = false ->
           exists c',
             post_chat provider now (Some msg) (Some cid) (Some uid) st
             = (Err ProviderError, <[cid := c']> st)
             /\ messages c' = messages c ++ [stored_message now "user" msg None])
       /\ (JsString.truthy (JsString.trim msg) = false ->
           post_chat provider now (Some msg) (Some cid) (Some uid) st
           = (Err ProviderError, st)).
Proof.
  intros Hc Hmsg context request.
  assert (Hctx : length context = (10 `min` length (messages c))%nat).
  { unfold context. by rewrite length_map, slice_last_length. }
  split_and!.
  - unfold request, chat_request, conversationContext. simpl. by rewrite Hc.
  - lia.
  - exact Hctx.
  - apply slice_last_suffix.
  - intros text Hprov.
    pose proof (post_chat_attached provider now msg cid uid st c text Hc Hmsg Hprov)
      as Hrun.
    split_and!.
    + intros Hm Ht. rewrite Hm, Ht in Hrun. eexists. split; [exact Hrun|].
      simpl. rewrite <- app_assoc. split; [reflexivity|].
      rewrite length_app. simpl. lia.
    + intros Hm Ht. rewrite Hm, Ht in Hrun. eexists. split; [exact Hrun|].
      reflexivity.
    + intros Hm. rewrite Hm in Hrun. exact Hrun.
Qed.

Lemma chat_relay_context_growth_witness :
  exists c',
    post_chat (fun _ => Completed "Sure.") 10 (Some "Plan a trip") (Some 1%N) (Some 7%N)
      Examples.one_trip
    = (Ok {| reply := "Sure."; reply_conversationId := Some 1%N |},
       <[1%N := c']> Examples.one_trip)
    /\ messages c'
       = messages Examples.trip ++ [stored_message 10 "user" "Plan a trip" None;
                                    stored_message 10 "assistant" "Sure." None].
Proof.
  destruct (chat_relay_context_growth (fun _ => Completed "Sure.") 10 "Plan a trip"
              1 7 Examples.one_trip Examples.trip eq_refl eq_refl)
    as (_ & _ & _ & _ & H).
  destruct (H "Sure." eq_refl) as (Hok & _ & _).
  destruct (Hok eq_refl eq_refl) as (c' & Hrun & Hm & _).
  exists c'. split; [exact Hrun | exact Hm].
Defined.

(** C7 as worded fails on a blank user message: the conversation is found
    under its owner, the completion succeeds, and the stored sequence does
    not grow at all. *)
Lemma chat_relay_context_growth_counterexample :
  lookup_owned Examples.one_trip 1 7 = Some Examples.trip
  /\ post_chat (fun _ => Completed "Sure.") 10 (Some " ") (Some 1%N) (Some 7%N)
       Examples.one_trip
     = (Err ProviderError, Examples.one_trip)
  /\ ~ exists c',
         (post_chat (fun _ => Completed "Sure.") 10 (Some " ") (Some 1%N) (Some 7%N)
            Examples.one_trip).2 !! 1%N = Some c'
         /\ length (messages c') = (length (messages Examples.trip) + 2)%nat.
Proof.
  assert (H : post_chat (fun _ => Completed "Sure.") 10 (Some " ") (Some 1%N) (Some 7%N)
                Examples.one_trip = (Err ProviderError, Examples.one_trip)).
  { rewrite (post_chat_attached _ 10 " " 1 7 Examples.one_trip Examples.trip "Sure.");
      reflexivity. }
  split_and!; [reflexivity | exact H |].
  rewrite H. intros (c' & Hc & Hlen).
  change (Some Examples.trip = Some c') in Hc. injection Hc as <-.
  discriminate.
Qed.

(** ** The token total *)

Lemma tokens_kept_refl (st : store) : tokens_kept st st.
Proof. intros id c Hc. right. by exists c. Qed.

Lemma tokens_kept_trans (st1 st2 st3 : store) :
  tokens_kept st1 st2 -> tokens_kept st2 st3 -> tokens_kept st1 st3.
Proof.
  intros H12 H23 id c3 Hc3.
  destruct (H23 id c3 Hc3) as [H0 | (c2 & Hc2 & Ht)]; [by left|].
  destruct (H12 id c2 Hc2) as [H0 | (c1 & Hc1 & Ht')].
  - left. congruence.
  - right. exists c1. split; [done|congruence].
Qed.

Lemma tokens_kept_insert (st : store) id c :
  (totalTokens c = 0%N \/ exists c0, st !! id = Some c0 /\ totalTokens c0 = totalTokens c) ->
  tokens_kept st (<[id := c]> st).
Proof.
  intros H id' c'. destruct (decide (id = id')) as [<-|Hne].
  - rewrite lookup_insert_eq. intros [= <-]. exact H.
  - rewrite lookup_insert_ne by done. intros Hc. right. by exists c'.
Qed.

Lemma tokens_kept_delete (st : store) id : tokens_kept st (delete id st).
Proof.
  intros id' c'. destruct (decide (id = id')) as [<-|Hne].
  - by rewrite lookup_delete_eq.
  - rewrite lookup_delete_ne by done. intros Hc. right. by exists c'.
Qed.

(** [save] writes the document it was given, or nothing. *)
Lemma save_effect now d (st : store) :
  save now d st = (Done (stamped now d), <[doc_id d := doc_data (stamped now d)]> st)
  \/ (save now d st = (Done d, st) /\ doc_new d = false /\ modified d = false)
  \/ exists e, save now d st = (Thrown e, st).
Proof.
  unfold save. destruct (negb (valid_document d)); [right; right; by eexists|].
  destruct (doc_new d).
  - destruct (bool_decide _); [right; right; by eexists|by left].
  - destruct (modified d); [by left|right; left; auto].
Qed.

Lemma stamped_tokens now d :
  totalTokens (doc_data (stamped now d)) = totalTokens (doc_data d).
Proof. reflexivity. Qed.

Lemma push_message_tokens now r text mdl d :
  totalTokens (doc_data (push_message now r text mdl d)) = totalTokens (doc_data d).
Proof. reflexivity. Qed.

Lemma retitle_tokens d :
  totalTokens (doc_data (retitle d)) = totalTokens (doc_data d).
Proof. by destruct (retitle_frame d) as (_ & _ & _ & _ & _ & H & _). Qed.

Lemma hydrate_backed (st : store) id uid c :
  lookup_owned st id uid = Some c -> backed st (hydrate id c).
Proof.
  intros H. apply lookup_owned_Some in H as [H _]. right. by exists c.
Qed.

Lemma save_backed now d (st : store) o st' :
  backed st d ->
  save now d st = (o, st') ->
  tokens_kept st st' /\ forall d', o = Done d' -> backed st' d'.
Proof.
  intros Hb Hs. destruct (save_effect now d st) as [H | [(H & _) | [e H]]];
    rewrite H in Hs; injection Hs as <- <-.
  - split; [by apply tokens_kept_insert|].
    intros d' [= <-]. right. eexists. split; [apply lookup_insert_eq|reflexivity].
  - split; [apply tokens_kept_refl|]. by intros d' [= <-].
  - split; [apply tokens_kept_refl|discriminate].
Qed.

Lemma addMessage_backed now r text mdl d (st : store) o st' :
  backed st d ->
  addMessage now r text mdl d st = (o, st') ->
  tokens_kept st st' /\ forall d', o = Done d' -> backed st' d'.
Proof. intros Hb. unfold addMessage. apply save_backed. exact Hb. Qed.

Lemma updateTitle_backed now d (st : store) o st' :
  backed st d ->
  updateTitleFromFirstMessage now d st = (o, st') ->
  tokens_kept st st' /\ forall d', o = Done d' -> backed st' d'.
Proof.
  intros Hb. unfold updateTitleFromFirstMessage. apply save_backed.
  destruct (retitle_frame d) as (Hid & _). unfold backed.
  by rewrite retitle_tokens, Hid.
Qed.

Lemma post_conversation_tokens now new_id uid title initialMessage (st : store) :
  tokens_kept st (post_conversation now new_id uid title initialMessage st).2.
Proof.
  unfold post_conversation. run_monad.
  set (d0 := new_conversation new_id uid (JsString.or_else title "New Chat")).
  assert (Hb0 : backed st d0) by (by left).
  assert (Hfinal : forall d (st1 : store),
            tokens_kept st st1 -> backed st1 d ->
            tokens_kept st
              (let (o, st') := let (o, st') := save now d st1 in
                 match o with
                 | Done a => (Done (Ok (getSummary (doc_id a) (doc_data a))), st')
                 | Thrown e => (Thrown e, st')
                 end in
               match o with
               | Done r => (r, st')
               | Thrown e => (Err (catch_validation e), st')
               end).2).
  { intros d st1 H1 Hb. destruct (save now d st1) as [[d'|e] st2] eqn:E;
      destruct (save_backed now d st1 _ _ Hb E) as [H2 _]; simpl;
      by eapply tokens_kept_trans. }
  destruct initialMessage as [text|]; [destruct (JsString.truthy text)|]; simpl;
    try (apply Hfinal; [apply tokens_kept_refl | exact Hb0]).
  destruct (addMessage now "user" text None d0 st) as [[d1|e] st1] eqn:E1;
    destruct (addMessage_backed now _ _ _ d0 st _ _ Hb0 E1) as [H1 Hb1]; [|exact H1].
  destruct (updateTitleFromFirstMessage now d1 st1) as [[d2|e] st2] eqn:E2;
    destruct (updateTitle_backed now d1 st1 _ _ (Hb1 d1 eq_refl) E2) as [H2 Hb2].
  - apply Hfinal; [by eapply tokens_kept_trans | by apply Hb2].
  - simpl. by eapply tokens_kept_trans.
Qed.

Lemma put_conversation_tokens now id uid body (st : store) :
  tokens_kept st (put_conversation now id uid body st).2.
Proof.
  rewrite put_conversation_run. simpl.
  destruct (valid_updates _); [|apply tokens_kept_refl].
  destruct (lookup_owned st id uid) as [c|] eqn:E; [|apply tokens_kept_refl].
  simpl. apply tokens_kept_insert. right. exists c.
  apply lookup_owned_Some in E as [E _]. by split.
Qed.

Lemma delete_conversation_tokens id uid (st : store) :
  tokens_kept st (delete_conversation id uid st).2.
Proof.
  rewrite delete_conversation_run.
  destruct (lookup_owned st id uid); [apply tokens_kept_delete|apply tokens_kept_refl].
Qed.

Lemma post_message_tokens now id uid role content mdl (st : store) :
  tokens_kept st (post_message now id uid role content mdl st).2.
Proof.
  unfold post_message. run_monad.
  destruct (negb (JsString.truthy_opt role) || negb (JsString.truthy_opt content));
    [apply tokens_kept_refl|].
  destruct (negb (valid_role (default "" role))); [apply tokens_kept_refl|].
  simpl. destruct (lookup_owned st id uid) as [c|] eqn:Hc; [|apply tokens_kept_refl].
  simpl.
  destruct (addMessage now (default "" role) (default "" content) mdl (hydrate id c) st)
    as [[d1|e] st1] eqn:E1;
    destruct (addMessage_backed now _ _ _ _ st _ _ (hydrate_backed st id uid c Hc) E1)
      as [H1 Hb1]; [|exact H1].
  destruct (bool_decide (length (messages (doc_data d1)) = 1%nat)); [|exact H1].
  destruct (updateTitleFromFirstMessage now d1 st1) as [[d2|e] st2] eqn:E2;
    destruct (updateTitle_backed now d1 st1 _ _ (Hb1 d1 eq_refl) E2) as [H2 _];
    simpl; by eapply tokens_kept_trans.
Qed.

Lemma post_chat_tokens provider now message cid uid (st : store) :
  tokens_kept st (post_chat provider now message cid uid st).2.
Proof.
  unfold post_chat. run_monad.
  destruct (negb (JsString.truthy_opt message)); [apply tokens_kept_refl|].
  destruct (provider _); [|apply tokens_kept_refl].
  destruct cid as [cid|], uid as [uid|]; simpl; try apply tokens_kept_refl.
  destruct (lookup_owned st cid uid) as [c|] eqn:Hc; [|apply tokens_kept_refl].
  simpl.
  destruct (addMessage now "user" (default "" message) None (hydrate cid c) st)
    as [[d1|e] st1] eqn:E1;
    destruct (addMessage_backed now _ _ _ _ st _ _ (hydrate_backed st cid uid c Hc) E1)
      as [H1 Hb1]; [|exact H1].
  destruct (addMessage now "assistant" text None d1 st1) as [[d2|e] st2] eqn:E2;
    destruct (addMessage_backed now _ _ _ d1 st1 _ _ (Hb1 d1 eq_refl) E2) as [H2 _];
    simpl; by eapply tokens_kept_trans.
Qed.

Lemma effect_tokens regex_compile provider r (st : store) :
  tokens_kept st (effect regex_compile provider r st).
Proof.
  destruct r; simpl.
  - rewrite get_conversations_run. apply tokens_kept_refl.
  - apply post_conversation_tokens.
  - rewrite get_conversation_run. apply tokens_kept_refl.
  - apply put_conversation_tokens.
  - apply delete_conversation_tokens.
  - apply post_message_tokens.
  - rewrite ?router_get_store. apply tokens_kept_refl.
  - apply post_chat_tokens.
Qed.

Lemma run_tokens regex_compile provider rs (st : store) :
  tokens_kept st (run regex_compile provider rs st).
Proof.
  revert st. induction rs as [|r rs IH]; intros st; simpl.
  - apply tokens_kept_refl.
  - eapply tokens_kept_trans; [apply effect_tokens | apply IH].
Qed.

(** C10.  After any sequence of requests, the token total of a stored
    conversation is zero, the value the constructor gives it, unless the
    conversation was in the collection from the start, in which case it is
    the total it had then: no request writes the field.  So from a
    collection whose totals are all zero, and from the empty collection in
    particular, every total stays zero. *)
Theorem totalTokens_never_written regex_compile provider rs (st0 : store) id c :
  run regex_compile provider rs st0 !! id = Some c ->
  (totalTokens c = 0%N
   \/ exists c0, st0 !! id = Some c0 /\ totalTokens c0 = totalTokens c)
  /\ ((forall i c0, st0 !! i = Some c0 -> totalTokens c0 = 0%N) ->
      totalTokens c = 0%N).
Proof.
  intros Hc.
  pose proof (run_tokens regex_compile provider rs st0 id c Hc) as H.
  split; [exact H|].
  intros Hzero. destruct H as [H | (c0 & Hc0 & Ht)]; [exact H|].
  rewrite <- Ht. by eapply Hzero.
Qed.

Lemma totalTokens_never_written_witness :
  exists c,
    run Fragment.compile (fun _ => Completed "Sure.") Examples.session ∅ !! 1%N = Some c
    /\ length (messages c) = 4%nat
    /\ totalTokens c = 0%N.
Proof.
  assert (H : exists c,
             run Fragment.compile (fun _ => Completed "Sure.") Examples.session ∅ !! 1%N = Some c
             /\ length (messages c) = 4%nat).
  { eexists. split; vm_compute; reflexivity. }
  destruct H as (c & Hc & Hlen). exists c. split_and!; [exact Hc | exact Hlen |].
  destruct (totalTokens_never_written _ _ _ _ _ _ Hc) as [_ H0].
  apply H0. intros i c0 Hi. by rewrite lookup_empty in Hi.
Defined.


(** * Further properties of the routes *)

(** ** Creation *)

Lemma valid_title_truthy t : valid_title t = true -> JsString.truthy t = true.
Proof. unfold valid_title. rewrite andb_true_iff. tauto. Qed.

Lemma post_conversation_run now new_id uid title initialMessage (st : store) :
  post_conversation now new_id uid title initialMessage st
  = if create_ok title initialMessage then
      if bool_decide (is_Some (st !! new_id)) then (Err InternalError, st)
      else (Ok (getSummary new_id (created now uid title initialMessage)),
            <[new_id := created now uid title initialMessage]> st)
    else (Err ValidationFailure, st).
Proof.
  unfold create_ok, created.
  set (t := JsString.or_else title "New Chat").
  match goal with |- _ = ?R => set (rhs := R) end.
  unfold post_conversation. run_monad. fold t.
  set (d0 := new_conversation new_id uid t).
  assert (Hv0 : valid_document d0 = valid_title (JsString.trim t)).
  { unfold d0, valid_document. simpl. apply andb_true_r. }
  assert (Hplain :
    (let (o, st') := let (o, st') := save now d0 st in
       match o with
       | Done a => (Done (Ok (getSummary (doc_id a) (doc_data a))), st')
       | Thrown e => (Thrown e, st')
       end in
     match o with
     | Done r => (r, st')
     | Thrown e => (Err (catch_validation e), st')
     end)
    = if valid_title (JsString.trim t) then
        if bool_decide (is_Some (st !! new_id)) then (Err InternalError, st)
        else (Ok (getSummary new_id (stamped now d0).(doc_data)),
              <[new_id := (stamped now d0).(doc_data)]> st)
      else (Err ValidationFailure, st)).
  { unfold save. rewrite Hv0.
    destruct (valid_title (JsString.trim t)); simpl; [|reflexivity].
    destruct (bool_decide (is_Some (st !! new_id))); reflexivity. }
  destruct initialMessage as [text|]; simpl in rhs |- *;
    [destruct (JsString.truthy text) eqn:Htext|]; subst rhs; simpl;
    try (rewrite Hplain; rewrite andb_true_r; reflexivity).
  set (d1 := push_message now "user" text default_model d0).
  unfold addMessage. simpl. fold d1.
  assert (Hv1 : valid_document d1
                = valid_title (JsString.trim t) && JsString.truthy (JsString.trim text)).
  { unfold d1, valid_document, valid_message. simpl. by rewrite andb_true_r. }
  destruct (valid_title (JsString.trim t) && JsString.truthy (JsString.trim text)) eqn:Hok.
  - apply andb_true_iff in Hok as [Ht Hm].
    unfold save at 1. rewrite Hv1. simpl.
    destruct (bool_decide (is_Some (st !! new_id))) eqn:Hdup; [reflexivity|].
    cbv beta iota zeta.
    unfold updateTitleFromFirstMessage.
    rewrite retitle_titled by (simpl; by apply valid_title_truthy).
    rewrite !save_clean. reflexivity.
  - rewrite save_invalid by exact Hv1. reflexivity.
Qed.

(** X1.  Creation is all or nothing.  When the title (defaulted to
    "New Chat" and trimmed) is empty or longer than 100 characters, or a
    first message is given but blank, the call is a ValidationFailure; when
    the generated id is taken it is an internal error; in both cases the
    collection is unchanged.  Otherwise exactly one document is inserted
    under the new id: owned by the caller, with the trimmed title, the
    trimmed first message as its only message (or none), nothing archived
    or pinned, no tags, a token total of zero, both timestamps at the time
    of the call; and the summary answered describes that document. *)
Theorem create_outcome now new_id uid ttl initialMessage (st : store) :
  (create_ok ttl initialMessage = false ->
   post_conversation now new_id uid ttl initialMessage st
   = (Err ValidationFailure, st))
  /\ (create_ok ttl initialMessage = true -> is_Some (st !! new_id) ->
      post_conversation now new_id uid ttl initialMessage st
      = (Err InternalError, st))
  /\ (create_ok ttl initialMessage = true -> st !! new_id = None ->
      exists c,
        post_conversation now new_id uid ttl initialMessage st
        = (Ok (getSummary new_id c), <[new_id := c]> st)
        /\ userId c = uid
        /\ title c = JsString.trim (JsString.or_else ttl "New Chat")
        /\ messages c
           = (if JsString.truthy_opt initialMessage
              then [stored_message now "user" (default "" initialMessage) None]
              else [])
        /\ isArchived c = false /\ isPinned c = false /\ tags c = []
        /\ totalTokens c = 0%N
        /\ createdAt c = now /\ updatedAt c = now).
Proof.
  rewrite post_conversation_run. split_and!.
  - intros ->. reflexivity.
  - intros -> Hsome. by rewrite bool_decide_eq_true_2.
  - intros -> Hnone. rewrite bool_decide_eq_false_2
      by (rewrite Hnone; by intros [? ?]).
    exists (created now uid ttl initialMessage). split_and!; reflexivity.
Qed.

Lemma create_outcome_witness :
  post_conversation 10 2 7 (Some "   ") None Examples.one_trip
  = (Err ValidationFailure, Examples.one_trip)
  /\ post_conversation 10 1 7 (Some "Again") None Examples.one_trip
     = (Err InternalError, Examples.one_trip)
  /\ exists c,
       post_conversation 10 2 7 (Some "") (Some " hello ") Examples.one_trip
       = (Ok (getSummary 2 c), <[2%N := c]> Examples.one_trip)
       /\ title c = "New Chat"
       /\ List.map content (messages c) = ["hello"].
Proof.
  split_and!.
  - apply (create_outcome 10 2 7 (Some "   ") None Examples.one_trip). reflexivity.
  - apply (create_outcome 10 1 7 (Some "Again") None Examples.one_trip);
      [reflexivity | by eexists].
  - destruct (create_outcome 10 2 7 (Some "") (Some " hello ") Examples.one_trip)
      as (_ & _ & H).
    destruct (H eq_refl eq_refl) as (c & Hrun & _ & Ht & Hm & _).
    exists c. split_and!; [exact Hrun | exact Ht | by rewrite Hm].
Defined.

(** X2.  A created conversation can be read back: after a successful
    creation the owner's read of the new id answers the stored document,
    whose summary is the one creation answered; any other user's read of
    that id is NotFound; and every other id of the collection holds what it
    held before. *)
Theorem create_get_roundtrip now new_id uid ttl initialMessage (st : store) s st' :
  post_conversation now new_id uid ttl initialMessage st = (Ok s, st') ->
  exists c,
    get_conversation new_id uid st' = (Ok (new_id, c), st')
    /\ getSummary new_id c = s
    /\ (forall other, other <> uid ->
          get_conversation new_id other st' = (Err NotFound, st'))
    /\ (forall id, id <> new_id -> st' !! id = st !! id).
Proof.
  rewrite post_conversation_run.
  destruct (create_ok ttl initialMessage); [|discriminate].
  destruct (bool_decide (is_Some (st !! new_id))); [discriminate|].
  intros [= <- <-]. exists (created now uid ttl initialMessage).
  assert (Hl : (<[new_id := created now uid ttl initialMessage]> st) !! new_id
               = Some (created now uid ttl initialMessage))
    by apply lookup_insert_eq.
  split_and!.
  - rewrite get_conversation_run.
    assert (Ho : lookup_owned (<[new_id := created now uid ttl initialMessage]> st)
                   new_id uid = Some (created now uid ttl initialMessage))
      by (by apply lookup_owned_Some).
    by rewrite Ho.
  - reflexivity.
  - intros other Hne. rewrite get_conversation_run.
    rewrite (lookup_owned_other _ new_id other _ Hl); [reflexivity|].
    simpl. congruence.
  - intros id Hne. by rewrite lookup_insert_ne.
Qed.

Lemma create_get_roundtrip_witness :
  exists c,
    get_conversation 2 7
      (post_conversation 10 2 7 None (Some "hello") Examples.one_trip).2
    = (Ok (2%N, c),
       (post_conversation 10 2 7 None (Some "hello") Examples.one_trip).2)
    /\ s_messageCount (getSummary 2 c) = 1%nat.
Proof.
  destruct (post_conversation 10 2 7 None (Some "hello") Examples.one_trip)
    as [r st'] eqn:E.
  assert (Hr : exists s, r = Ok s /\ s_messageCount s = 1%nat).
  { rewrite post_conversation_run in E. injection E as <- _. by eexists. }
  destruct Hr as (s & -> & Hcount).
  destruct (create_get_roundtrip 10 2 7 None (Some "hello") Examples.one_trip s st' E)
    as (c & Hget & Hs & _).
  exists c. split; [exact Hget | by rewrite Hs].
Defined.

(** ** Updating *)

Lemma valid_temperature_spec t :
  valid_temperature t = true <-> (0 <= t /\ t <= 2)%Q.
Proof.
  unfold valid_temperature. by rewrite andb_true_iff, !Qle_bool_iff.
Qed.

Lemma valid_updates_spec body :
  valid_updates (cast_updates (build_updates body)) = true
  <-> (forall t, p_title body = Some t -> valid_title (JsString.trim t) = true)
      /\ (forall s t, p_settings body = Some s -> temperature s = Some t ->
            (0 <= t /\ t <= 2)%Q).
Proof.
  destruct (build_updates_fields body) as (Ht & _ & _ & _ & Hs).
  unfold valid_updates, cast_updates. simpl. rewrite Ht, Hs, andb_true_iff.
  destruct (p_title body) as [t|], (p_settings body) as [[[q|] m]|]; simpl;
    rewrite ?valid_temperature_spec; split.
  all: try (intros [H1 H2]; split;
            [intros ? [= <-]; exact H1 || done
            |intros ? ? [= <-] [= <-]; exact H2 || done]).
  all: try (intros [H1 H2]; split; [intros ? [=] || (intros ? [= <-]; exact H1)
                                   |intros ? ? [=] || (intros ? ? [= <-] [=])]).
  all: intros [H1 H2]; split; eauto.
Qed.

(** X3.  An update is validated as a whole before anything is looked up or
    written: a title that is empty once trimmed or longer than 100
    characters, or a temperature outside [0, 2], makes the call a
    ValidationFailure and leaves the collection unchanged, whatever else the
    request carries.  A valid update of a conversation of the caller
    replaces the title, tags and flags the request names (title and tags
    trimmed), keeps those it does not name, never touches the messages, the
    owner, the token total, the model or the creation time, stamps the
    update time, and answers the summary of the document now stored. *)
Theorem update_outcome now id uid body (st : store) :
  ((exists t, p_title body = Some t /\ valid_title (JsString.trim t) = false)
   \/ (exists s t, p_settings body = Some s /\ temperature s = Some t
                   /\ ~ (0 <= t /\ t <= 2)%Q) ->
   put_conversation now id uid body st = (Err ValidationFailure, st))
  /\ (forall c,
        (forall t, p_title body = Some t -> valid_title (JsString.trim t) = true) ->
        (forall s t, p_settings body = Some s -> temperature s = Some t ->
           (0 <= t /\ t <= 2)%Q) ->
        lookup_owned st id uid = Some c ->
        exists c',
          put_conversation now id uid body st
          = (Ok (getSummary id c'), <[id := c']> st)
          /\ title c' = default (title c) (option_map JsString.trim (p_title body))
          /\ tags c'
             = default (tags c) (option_map (List.map JsString.trim) (p_tags body))
          /\ isArchived c' = default (isArchived c) (p_isArchived body)
          /\ isPinned c' = default (isPinned c) (p_isPinned body)
          /\ messages c' = messages c /\ userId c' = userId c
          /\ totalTokens c' = totalTokens c /\ model c' = model c
          /\ createdAt c' = createdAt c /\ updatedAt c' = now).
Proof.
  split.
  - intros Hbad. rewrite put_conversation_run. simpl.
    destruct (valid_updates (cast_updates (build_updates body))) eqn:E; [|reflexivity].
    apply valid_updates_spec in E as [Ht Hs].
    destruct Hbad as [(t & Hb & Hf) | (s & t & Hb & Hbt & Hf)].
    + rewrite (Ht t Hb) in Hf. discriminate.
    + destruct Hf. by eapply Hs.
  - intros c Ht Hs Hc.
    assert (Hv : valid_updates (cast_updates (build_updates body)) = true)
      by (by apply valid_updates_spec).
    destruct (put_conversation_fields now id uid body st c Hc Hv)
      as (c' & Hrun & H1 & H2 & H3 & H4 & _ & H6 & H7 & H8 & H9 & H10 & H11).
    exists c'. split_and!; assumption.
Qed.

Lemma update_outcome_witness :
  put_conversation 12 1 7
    {| p_title := Some "  "; p_tags := Some ["x"]; p_isArchived := Some true;
       p_isPinned := None; p_settings := None |} Examples.one_trip
  = (Err ValidationFailure, Examples.one_trip)
  /\ exists c',
       put_conversation 12 1 7
         {| p_title := None; p_tags := Some [" travel "]; p_isArchived := None;
            p_isPinned := Some true; p_settings := None |} Examples.one_trip
       = (Ok (getSummary 1 c'), <[1%N := c']> Examples.one_trip)
       /\ title c' = "Trip Planning" /\ tags c' = ["travel"]
       /\ isPinned c' = true /\ isArchived c' = false.
Proof.
  split.
  - apply (update_outcome 12 1 7 _ Examples.one_trip). left.
    exists "  ". split; reflexivity.
  - destruct (update_outcome 12 1 7
                {| p_title := None; p_tags := Some [" travel "]; p_isArchived := None;
                   p_isPinned := Some true; p_settings := None |} Examples.one_trip)
      as [_ H].
    destruct (H Examples.trip) as (c' & Hrun & Ht & Hg & Ha & Hp & _);
      [intros t [=] | intros s t [=] | reflexivity |].
    exists c'. split_and!; [exact Hrun | exact Ht | exact Hg | exact Hp | exact Ha].
Defined.

(** ** Deleting *)

(** X4.  Deleting a conversation of the caller removes exactly that
    document: every other id holds what it held; afterwards a read, a
    second delete, a valid update and a valid append of that id are all
    NotFound for every user, and a chat that names it gets no context. *)
Theorem delete_then_gone id uid (st : store) c :
  lookup_owned st id uid = Some c ->
  exists st',
    delete_conversation id uid st = (Ok tt, st')
    /\ st' !! id = None
    /\ (forall other, other <> id -> st' !! other = st !! other)
    /\ (forall u,
          get_conversation id u st' = (Err NotFound, st')
          /\ delete_conversation id u st' = (Err NotFound, st')
          /\ (forall now body,
                valid_updates (cast_updates (build_updates body)) = true ->
                put_conversation now id u body st' = (Err NotFound, st'))
          /\ (forall now r text mdl,
                (r = "user" \/ r = "assistant") -> text <> "" ->
                post_message now id u (Some r) (Some text) mdl st'
                = (Err NotFound, st'))
          /\ conversationContext st' (Some id) (Some u) = []).
Proof.
  intros Hc. exists (delete id st).
  assert (Hgone : forall u, lookup_owned (delete id st) id u = None).
  { intros u. unfold lookup_owned. by rewrite lookup_delete_eq. }
  split_and!.
  - by rewrite delete_conversation_run, Hc.
  - apply lookup_delete_eq.
  - intros other Hne. by apply lookup_delete_ne.
  - intros u. split_and!.
    + by rewrite get_conversation_run, Hgone.
    + by rewrite delete_conversation_run, Hgone.
    + intros now body Hv. rewrite put_conversation_run. simpl. by rewrite Hv, Hgone.
    + intros now r text mdl Hr Ht. apply post_message_missing; [|apply Hgone].
      apply message_body_ok_spec. by exists r, text.
    + unfold conversationContext. by rewrite Hgone.
Qed.

Lemma delete_then_gone_witness :
  exists st',
    delete_conversation 1 7 Examples.one_trip = (Ok tt, st')
    /\ get_conversation 1 7 st' = (Err NotFound, st').
Proof.
  destruct (delete_then_gone 1 7 Examples.one_trip Examples.trip eq_refl)
    as (st' & Hdel & _ & _ & H).
  exists st'. split; [exact Hdel | exact (proj1 (H 7%N))].
Defined.

(** ** Appending: the summary and sequences of appends *)

(** X5.  The summary a successful append answers counts one message more
    than were stored and names the appended message, with its trimmed
    content, as the last one; the owner's read of the conversation then
    returns a message sequence that ends with that message. *)
Theorem append_summary now id uid r text mdl (st : store) c :
  (r = "user" \/ r = "assistant") ->
  JsString.truthy (JsString.trim text) = true ->
  lookup_owned st id uid = Some c ->
  exists s st' c',
    post_message now id uid (Some r) (Some text) mdl st = (Ok s, st')
    /\ s_id s = id
    /\ s_messageCount s = S (messageCount c)
    /\ s_lastMessage s = Some (stored_message now r text mdl)
    /\ get_conversation id uid st' = (Ok (id, c'), st')
    /\ lastMessage c' = Some (stored_message now r text mdl)
    /\ messageCount c' = S (messageCount c).
Proof.
  intros Hr Ht Hc.
  assert (Hne : text <> "") by (intros ->; discriminate).
  pose proof (post_message_found now id uid r text mdl st c Hr Hne Hc) as Hrun.
  rewrite Ht in Hrun. fold (appended now id r text mdl c) in Hrun.
  destruct (appended_fields now id r text mdl c) as (Hm & Hu & _).
  set (c' := appended now id r text mdl c) in *.
  assert (Hlast : lastMessage c' = Some (stored_message now r text mdl)).
  { unfold lastMessage. rewrite Hm. apply last_snoc. }
  assert (Hcount : messageCount c' = S (messageCount c)).
  { unfold messageCount. rewrite Hm, length_app. simpl. lia. }
  exists (getSummary id c'), (<[id := c']> st), c'.
  split_and!; try assumption; try reflexivity.
  rewrite get_conversation_run.
  assert (Ho : lookup_owned (<[id := c']> st) id uid = Some c').
  { apply lookup_owned_Some. split; [apply lookup_insert_eq|].
    rewrite Hu. by apply lookup_owned_Some in Hc as [_ ?]. }
  by rewrite Ho.
Qed.

Lemma append_summary_witness :
  exists s st' c',
    post_message 11 1 7 (Some "user") (Some " hi ") None Examples.one_trip = (Ok s, st')
    /\ s_messageCount s = 1%nat
    /\ option_map content (s_lastMessage s) = Some "hi"
    /\ get_conversation 1 7 st' = (Ok (1%N, c'), st').
Proof.
  destruct (append_summary 11 1 7 "user" " hi " None Examples.one_trip Examples.trip)
    as (s & st' & c' & Hrun & _ & Hcount & Hlast & Hget & _);
    [by left | reflexivity | reflexivity |].
  exists s, st', c'. split_and!; [exact Hrun | exact Hcount | by rewrite Hlast | exact Hget].
Defined.

Lemma append_sequence_run regex_compile provider id uid (entries : list entry) :
  forall (st : store) c,
    lookup_owned st id uid = Some c ->
    Forall entry_ok entries ->
    exists c',
      lookup_owned (run regex_compile provider
                      (List.map (entry_request id uid) entries) st) id uid = Some c'
      /\ messages c' = messages c ++ List.map entry_message entries
      /\ (forall other, other <> id ->
            run regex_compile provider
              (List.map (entry_request id uid) entries) st !! other = st !! other).
Proof.
  induction entries as [|[[[now r] text] mdl] entries IH]; intros st c Hc Hok.
  - exists c. simpl. rewrite app_nil_r. by split_and!.
  - apply Forall_cons in Hok as [[Hr Ht] Hok].
    assert (Hne : text <> "") by (intros ->; discriminate).
    pose proof (post_message_found now id uid r text mdl st c Hr Hne Hc) as Hrun.
    rewrite Ht in Hrun. fold (appended now id r text mdl c) in Hrun.
    destruct (appended_fields now id r text mdl c) as (Hm & Hu & _).
    set (c1 := appended now id r text mdl c) in *.
    assert (Ho : lookup_owned (<[id := c1]> st) id uid = Some c1).
    { apply lookup_owned_Some. split; [apply lookup_insert_eq|].
      rewrite Hu. by apply lookup_owned_Some in Hc as [_ ?]. }
    destruct (IH (<[id := c1]> st) c1 Ho Hok) as (c' & Hc' & Hm' & Hothers).
    exists c'.
    match goal with
    | |- context [run regex_compile provider ?l st] =>
        assert (Hstep :
          run regex_compile provider l st
          = run regex_compile provider (List.map (entry_request id uid) entries)
              (<[id := c1]> st))
    end.
    { unfold run. cbn [List.map fold_left entry_request effect]. by rewrite Hrun. }
    rewrite Hstep.
    split_and!.
    + exact Hc'.
    + rewrite Hm', Hm, <- app_assoc. reflexivity.
    + intros other Hne'. rewrite (Hothers other Hne'). by apply lookup_insert_ne.
Qed.

(** X6.  A sequence of accepted appends to a conversation of the caller
    extends its messages by exactly those messages, in the order of the
    calls and with trimmed contents; so the message count grows by the
    number of calls and the last message is the one of the last call.  No
    other conversation changes. *)
Theorem append_sequence regex_compile provider id uid (entries : list entry)
    (st : store) c :
  lookup_owned st id uid = Some c ->
  Forall entry_ok entries ->
  exists c',
    run regex_compile provider (List.map (entry_request id uid) entries) st !! id
    = Some c'
    /\ userId c' = uid
    /\ messages c' = messages c ++ List.map entry_message entries
    /\ messageCount c' = (messageCount c + length entries)%nat
    /\ lastMessage c' = last (messages c ++ List.map entry_message entries)
    /\ (forall other, other <> id ->
          run regex_compile provider (List.map (entry_request id uid) entries) st
            !! other = st !! other).
Proof.
  intros Hc Hok.
  destruct (append_sequence_run regex_compile provider id uid entries st c Hc Hok)
    as (c' & Hc' & Hm & Hothers).
  apply lookup_owned_Some in Hc' as [Hl Hu].
  exists c'. split_and!; try assumption.
  - unfold messageCount. by rewrite Hm, length_app, length_map.
  - unfold lastMessage. by rewrite Hm.
Qed.

Lemma append_sequence_witness :
  exists c',
    run Fragment.compile (fun _ => Completed "Sure.")
      (List.map (entry_request 1 7)
         [(11%N, "user", " one ", None); (12%N, "assistant", "two", None);
          (13%N, "user", "three", Some "gpt-4o")])
      Examples.one_trip !! 1%N = Some c'
    /\ List.map content (messages c') = ["one"; "two"; "three"]
    /\ messageCount c' = 3%nat.
Proof.
  destruct (append_sequence Fragment.compile (fun _ => Completed "Sure.") 1 7
              [(11%N, "user", " one ", None); (12%N, "assistant", "two", None);
               (13%N, "user", "three", Some "gpt-4o")]
              Examples.one_trip Examples.trip eq_refl)
    as (c' & Hc' & _ & Hm & Hcount & _).
  { repeat constructor; (by left) || (by right). }
  exists c'. split_and!; [exact Hc' | by rewrite Hm | exact Hcount].
Defined.

(** ** The schema as an invariant of the collection *)

Section TrimIdempotent.
Import JsString.

Lemma trim_end_idem s : trim_end (trim_end s) = trim_end s.
Proof.
  induction s as [|c s IH]; [reflexivity|]. cbn [trim_end].
  destruct (trim_end s) as [|y r] eqn:E.
  - destruct (is_white c) eqn:Hc; [reflexivity|]. cbn [trim_end]. by rewrite Hc.
  - change (trim_end (String c (String y r)))
      with (match trim_end (String y r) with
            | EmptyString => if is_white c then EmptyString else String c EmptyString
            | String _ _ as r0 => String c r0
            end).
    by rewrite IH.
Qed.

Lemma trim_start_clean x r :
  is_white x = false -> trim_start (String x r) = String x r.
Proof. intros H. simpl. by rewrite H. Qed.

Lemma trim_idem s : trim (trim s) = trim s.
Proof.
  unfold trim. destruct (trim_start s) as [|x r] eqn:E; [reflexivity|].
  pose proof (trim_start_head _ _ _ E) as Hx.
  destruct (trim_end_head x r Hx) as [r' Hr]. rewrite Hr.
  rewrite (trim_start_clean x r' Hx), <- Hr. apply trim_end_idem.
Qed.

End TrimIdempotent.

Lemma hydrate_sound id c : well_formed c -> doc_sound (hydrate id c).
Proof.
  intros (Hv & Ht & Hm & Hg & Hs). unfold doc_sound. simpl. split_and!; try done.
  exists (messages c). by rewrite app_nil_r.
Qed.

Lemma new_conversation_sound id uid t : doc_sound (new_conversation id uid t).
Proof.
  unfold doc_sound. simpl. split_and!; try done.
  - by rewrite trim_idem.
  - by exists [].
  - intros t' [= <-]. unfold default_temperature. split; by apply Qle_bool_iff.
Qed.

Lemma push_message_sound now r text mdl d :
  doc_sound d -> doc_sound (push_message now r text mdl d).
Proof.
  intros (Hv & Ht & (old & Hm & Hold) & Hp & Hg & Hs).
  unfold doc_sound. simpl. split_and!; try done.
  - exists old. split; [|done]. by rewrite Hm, app_assoc.
  - apply Forall_app. split; [done|]. constructor; [|done]. simpl. by rewrite trim_idem.
Qed.

Lemma retitle_sound d : doc_sound d -> doc_sound (retitle d).
Proof.
  intros Hd. unfold retitle.
  destruct (List.find _ _); [|done]. destruct (negb _); [|done].
  destruct Hd as (Hv & Ht & Hm & Hp & Hg & Hs).
  unfold doc_sound. simpl. split_and!; try done. by rewrite trim_idem.
Qed.

(** [save] stores only what the schema accepts. *)
Lemma save_sound now d (st : store) o st' :
  doc_sound d -> store_well_formed st ->
  save now d st = (o, st') ->
  store_well_formed st' /\ forall d', o = Done d' -> doc_sound d'.
Proof.
  intros Hd Hst. pose proof Hd as (Hv & Ht & (old & Hm & Hold) & Hp & Hg & Hs).
  destruct (valid_document d) eqn:Hvalid;
    [|rewrite save_invalid by done; by intros [= <- <-]].
  assert (Hwrite :
    store_well_formed (<[doc_id d := doc_data (stamped now d)]> st)
    /\ doc_sound (stamped now d)).
  { unfold valid_document in Hvalid. apply andb_true_iff in Hvalid as [Hvt Hvp].
    assert (Htitle : valid_title (title (doc_data d)) = true).
    { destruct (title_dirty d); [exact Hvt | by apply Hv]. }
    assert (Hmsgs : Forall message_sound (messages (doc_data d))).
    { rewrite Hm. apply Forall_app. split; [done|].
      rewrite forallb_forall in Hvp. rewrite Forall_forall in Hp |- *.
      intros m Hin. split; [apply Hvp; by apply list_elem_of_In | by apply Hp]. }
    split.
    - apply map_Forall_insert_2; [|done]. unfold well_formed. simpl. by split_and!.
    - unfold doc_sound. simpl. split_and!; try done.
      exists (messages (doc_data d)). by rewrite app_nil_r. }
  destruct Hwrite as [Hst' Hd'].
  intros Hsave.
  destruct (save_effect now d st) as [H | [(H & _) | [e H]]];
    rewrite H in Hsave; injection Hsave as <- <-;
    (split; [assumption|]); try discriminate; intros d' [= <-]; assumption.
Qed.

Lemma addMessage_sound now r text mdl d (st : store) o st' :
  doc_sound d -> store_well_formed st ->
  addMessage now r text mdl d st = (o, st') ->
  store_well_formed st' /\ forall d', o = Done d' -> doc_sound d'.
Proof. intros Hd. unfold addMessage. apply save_sound. by apply push_message_sound. Qed.

Lemma updateTitle_sound now d (st : store) o st' :
  doc_sound d -> store_well_formed st ->
  updateTitleFromFirstMessage now d st = (o, st') ->
  store_well_formed st' /\ forall d', o = Done d' -> doc_sound d'.
Proof.
  intros Hd. unfold updateTitleFromFirstMessage. apply save_sound.
  by apply retitle_sound.
Qed.

Lemma lookup_owned_well_formed (st : store) id uid c :
  store_well_formed st -> lookup_owned st id uid = Some c -> well_formed c.
Proof. intros Hst Hc. apply lookup_owned_Some in Hc as [Hc _]. by eapply Hst. Qed.

Lemma apply_updates_well_formed now body c :
  valid_updates (cast_updates (build_updates body)) = true ->
  well_formed c ->
  well_formed (apply_updates now (cast_updates (build_updates body)) c).
Proof.
  intros Hv (Hvt & Ht & Hm & Hg & Hs).
  destruct (build_updates_fields body) as (Et & Eg & _ & _ & Es).
  apply valid_updates_spec in Hv as [Hvt' Hvs].
  unfold well_formed, apply_updates, cast_updates. simpl. rewrite Et, Eg, Es.
  split_and!.
  - destruct (p_title body) as [t|]; simpl; [by apply Hvt'|done].
  - destruct (p_title body) as [t|]; simpl; [by rewrite trim_idem|done].
  - done.
  - destruct (p_tags body) as [ts|]; simpl; [|done].
    apply Forall_forall. intros t Hin. apply list_elem_of_In, in_map_iff in Hin.
    destruct Hin as (t0 & <- & _). by rewrite trim_idem.
  - destruct (p_settings body) as [s|]; simpl; [|done].
    intros t Hts. by eapply Hvs.
Qed.

Lemma post_conversation_sound now new_id uid ttl initialMessage (st : store) :
  store_well_formed st ->
  store_well_formed (post_conversation now new_id uid ttl initialMessage st).2.
Proof.
  intros Hst. rewrite post_conversation_run.
  destruct (create_ok ttl initialMessage) eqn:Hok; [|done].
  destruct (bool_decide _); [done|]. simpl.
  apply map_Forall_insert_2; [|done].
  unfold create_ok in Hok. apply andb_true_iff in Hok as [Hvt Hvm].
  unfold well_formed, created. simpl. split_and!; try done.
  - by rewrite trim_idem.
  - destruct (JsString.truthy_opt initialMessage); [|done].
    constructor; [|done]. split; [|simpl; by rewrite trim_idem].
    unfold valid_message. simpl. by rewrite Hvm.
  - intros t [= <-]. unfold default_temperature. split; by apply Qle_bool_iff.
Qed.

Lemma put_conversation_sound now id uid body (st : store) :
  store_well_formed st ->
  store_well_formed (put_conversation now id uid body st).2.
Proof.
  intros Hst. rewrite put_conversation_run. simpl.
  destruct (valid_updates _) eqn:Hv; [|done].
  destruct (lookup_owned st id uid) as [c|] eqn:Hc; [|done]. simpl.
  apply map_Forall_insert_2; [|done].
  apply apply_updates_well_formed; [done|]. by eapply lookup_owned_well_formed.
Qed.

Lemma delete_conversation_sound id uid (st : store) :
  store_well_formed st ->
  store_well_formed (delete_conversation id uid st).2.
Proof.
  intros Hst. rewrite delete_conversation_run.
  destruct (lookup_owned st id uid); [|done]. by apply map_Forall_delete.
Qed.

Lemma post_message_sound now id uid role content mdl (st : store) :
  store_well_formed st ->
  store_well_formed (post_message now id uid role content mdl st).2.
Proof.
  intros Hst. unfold post_message. run_monad.
  destruct (negb (JsString.truthy_opt role) || negb (JsString.truthy_opt content));
    [done|].
  destruct (negb (valid_role (default "" role))); [done|].
  simpl. destruct (lookup_owned st id uid) as [c|] eqn:Hc; [|done].
  simpl.
  pose proof (hydrate_sound id c (lookup_owned_well_formed st id uid c Hst Hc)) as Hd.
  destruct (addMessage now (default "" role) (default "" content) mdl (hydrate id c) st)
    as [[d1|e] st1] eqn:E1;
    destruct (addMessage_sound now _ _ _ _ st _ _ Hd Hst E1) as [H1 Hd1]; [|exact H1].
  destruct (bool_decide (length (messages (doc_data d1)) = 1%nat)); [|exact H1].
  destruct (updateTitleFromFirstMessage now d1 st1) as [[d2|e] st2] eqn:E2;
    destruct (updateTitle_sound now d1 st1 _ _ (Hd1 d1 eq_refl) H1 E2) as [H2 _];
    exact H2.
Qed.

Lemma post_chat_sound provider now message cid uid (st : store) :
  store_well_formed st ->
  store_well_formed (post_chat provider now message cid uid st).2.
Proof.
  intros Hst. unfold post_chat. run_monad.
  destruct (negb (JsString.truthy_opt message)); [done|].
  destruct (provider _); [|done].
  destruct cid as [cid|], uid as [uid|]; simpl; try done.
  destruct (lookup_owned st cid uid) as [c|] eqn:Hc; [|done].
  simpl.
  pose proof (hydrate_sound cid c (lookup_owned_well_formed st cid uid c Hst Hc)) as Hd.
  destruct (addMessage now "user" (default "" message) None (hydrate cid c) st)
    as [[d1|e] st1] eqn:E1;
    destruct (addMessage_sound now _ _ _ _ st _ _ Hd Hst E1) as [H1 Hd1]; [|exact H1].
  destruct (addMessage now "assistant" text None d1 st1) as [[d2|e] st2] eqn:E2;
    destruct (addMessage_sound now _ _ _ d1 st1 _ _ (Hd1 d1 eq_refl) H1 E2) as [H2 _];
    exact H2.
Qed.

Lemma effect_sound regex_compile provider r (st : store) :
  store_well_formed st -> store_well_formed (effect regex_compile provider r st).
Proof.
  intros Hst. destruct r; simpl.
  - by rewrite get_conversations_run.
  - by apply post_conversation_sound.
  - by rewrite get_conversation_run.
  - by apply put_conversation_sound.
  - by apply delete_conversation_sound.
  - by apply post_message_sound.
  - by rewrite ?router_get_store.
  - by apply post_chat_sound.
Qed.

(** X7.  The schema is an invariant of the collection.  If every stored
    conversation has a trimmed title of 1 to 100 characters, messages whose
    role is user or assistant and whose content is trimmed and not empty,
    trimmed tags and a temperature (when stored) between 0 and 2, then the
    same holds after any sequence of requests to the conversation and chat
    routes; in particular it holds of everything reachable from the empty
    collection. *)
Theorem schema_invariant regex_compile provider rs (st : store) :
  store_well_formed st ->
  store_well_formed (run regex_compile provider rs st).
Proof.
  revert st. induction rs as [|r rs IH]; intros st Hst; [exact Hst|].
  apply IH. by apply effect_sound.
Qed.

Lemma schema_invariant_witness :
  store_well_formed
    (run Fragment.compile (fun _ => Completed "  Sure.  ") Examples.session ∅).
Proof.
  apply (schema_invariant Fragment.compile (fun _ => Completed "  Sure.  ")
           Examples.session ∅).
  apply map_Forall_empty.
Defined.

(** ** Conversations only grow *)

Lemma extends_refl c : extends c c.
Proof. by split_and!. Qed.

Lemma extends_trans c1 c2 c3 : extends c1 c2 -> extends c2 c3 -> extends c1 c3.
Proof.
  intros (Hu & Hc & Hm) (Hu' & Hc' & Hm'). split_and!; [congruence..|].
  by etransitivity.
Qed.

Lemma grows_refl (st : store) : grows st st.
Proof. intros id c Hc. exists c. split; [done|apply extends_refl]. Qed.

Lemma grows_trans (st1 st2 st3 : store) :
  grows st1 st2 -> grows st2 st3 -> grows st1 st3.
Proof.
  intros H12 H23 id c1 Hc1.
  destruct (H12 id c1 Hc1) as (c2 & Hc2 & He).
  destruct (H23 id c2 Hc2) as (c3 & Hc3 & He').
  exists c3. split; [done|by eapply extends_trans].
Qed.

Lemma hydrate_tracks (st : store) id uid c :
  lookup_owned st id uid = Some c -> tracks st (hydrate id c).
Proof.
  intros H _. apply lookup_owned_Some in H as [H _].
  exists c. split; [done|apply extends_refl].
Qed.

Lemma save_grows now d (st : store) o st' :
  tracks st d ->
  save now d st = (o, st') ->
  grows st st' /\ forall d', o = Done d' -> tracks st' d'.
Proof.
  intros Ht. unfold save.
  destruct (negb (valid_document d)); [intros [= <- <-]; split; [apply grows_refl|done]|].
  destruct (doc_new d) eqn:Hnew; simpl.
  - case_bool_decide as Hdup; intros [= <- <-]; [split; [apply grows_refl|done]|].
    split.
    + intros id c Hc. destruct (decide (id = doc_id d)) as [->|Hne].
      * destruct Hdup. by eexists.
      * exists c. rewrite lookup_insert_ne by done. split; [done|apply extends_refl].
    + intros d' [= <-] _. simpl. eexists. split; [apply lookup_insert_eq|].
      apply extends_refl.
  - destruct (modified d); intros [= <- <-];
      [|split; [apply grows_refl|]; intros d' [= <-]; exact Ht].
    destruct (Ht Hnew) as (c0 & Hc0 & He). split.
    + intros id c Hc. destruct (decide (id = doc_id d)) as [->|Hne].
      * rewrite Hc0 in Hc. injection Hc as <-.
        eexists. split; [apply lookup_insert_eq|].
        destruct He as (Hu & Hcr & Hm). unfold extends. simpl.
        by rewrite Hnew.
      * exists c. rewrite lookup_insert_ne by done. split; [done|apply extends_refl].
    + intros d' [= <-] _. simpl. eexists. split; [apply lookup_insert_eq|].
      apply extends_refl.
Qed.

Lemma push_message_tracks now r text mdl d (st : store) :
  tracks st d -> tracks st (push_message now r text mdl d).
Proof.
  intros Ht Hnew. destruct (Ht Hnew) as (c0 & Hc0 & Hu & Hc & Hm).
  exists c0. split; [done|]. split_and!; [done..|]. simpl. by apply prefix_app_r.
Qed.

Lemma retitle_tracks d (st : store) : tracks st d -> tracks st (retitle d).
Proof.
  intros Ht. destruct (retitle_frame d)
    as (Hid & Hnew & _ & Hm & Hu & _ & _ & _ & _ & _ & _ & Hc).
  intros Hn. rewrite Hnew in Hn. destruct (Ht Hn) as (c0 & Hc0 & Eu & Ec & Em).
  exists c0. rewrite Hid. split; [done|]. unfold extends. by rewrite Hm, Hu, Hc.
Qed.

Lemma addMessage_grows now r text mdl d (st : store) o st' :
  tracks st d ->
  addMessage now r text mdl d st = (o, st') ->
  grows st st' /\ forall d', o = Done d' -> tracks st' d'.
Proof. intros Ht. unfold addMessage. apply save_grows. by apply push_message_tracks. Qed.

Lemma updateTitle_grows now d (st : store) o st' :
  tracks st d ->
  updateTitleFromFirstMessage now d st = (o, st') ->
  grows st st' /\ forall d', o = Done d' -> tracks st' d'.
Proof.
  intros Ht. unfold updateTitleFromFirstMessage. apply save_grows.
  by apply retitle_tracks.
Qed.

Lemma grows_insert (st : store) id c0 c :
  st !! id = Some c0 -> extends c0 c -> grows st (<[id := c]> st).
Proof.
  intros Hc0 He id' c' Hc'. destruct (decide (id' = id)) as [->|Hne].
  - rewrite Hc0 in Hc'. injection Hc' as <-. exists c.
    split; [apply lookup_insert_eq|done].
  - exists c'. rewrite lookup_insert_ne by done. split; [done|apply extends_refl].
Qed.

Lemma grows_insert_fresh (st : store) id c :
  st !! id = None -> grows st (<[id := c]> st).
Proof.
  intros Hnone id' c' Hc'. destruct (decide (id' = id)) as [->|Hne]; [congruence|].
  exists c'. rewrite lookup_insert_ne by done. split; [done|apply extends_refl].
Qed.

Lemma effect_grows regex_compile provider r (st : store) :
  is_delete r = false -> grows st (effect regex_compile provider r st).
Proof.
  destruct r as [uid page limit archived search | now new_id uid ttl first
                | id uid | now id uid body | id uid
                | now id uid role content mdl | uid q page limit
                | now message cid uid]; simpl; intros Hd; try discriminate.
  - rewrite get_conversations_run. apply grows_refl.
  - rewrite post_conversation_run.
    destruct (create_ok ttl first); [|apply grows_refl].
    case_bool_decide as Hdup; [apply grows_refl|]. simpl.
    apply grows_insert_fresh. destruct (st !! new_id) eqn:E; [|done].
    destruct Hdup. by eexists.
  - rewrite get_conversation_run. apply grows_refl.
  - rewrite put_conversation_run. simpl.
    destruct (valid_updates _); [|apply grows_refl].
    destruct (lookup_owned st id uid) as [c|] eqn:Hc; [|apply grows_refl]. simpl.
    apply lookup_owned_Some in Hc as [Hc _].
    eapply grows_insert; [exact Hc|]. by split_and!.
  - unfold post_message. run_monad.
    destruct (negb (JsString.truthy_opt role) || negb (JsString.truthy_opt content));
      [apply grows_refl|].
    destruct (negb (valid_role (default "" role))); [apply grows_refl|].
    simpl. destruct (lookup_owned st id uid) as [c|] eqn:Hc; [|apply grows_refl].
    simpl.
    destruct (addMessage now (default "" role) (default "" content) mdl (hydrate id c) st)
      as [[d1|e] st1] eqn:E1;
      destruct (addMessage_grows now _ _ _ _ st _ _ (hydrate_tracks st id uid c Hc) E1)
        as [H1 Hd1]; [|exact H1].
    destruct (bool_decide (length (messages (doc_data d1)) = 1%nat)); [|exact H1].
    destruct (updateTitleFromFirstMessage now d1 st1) as [[d2|e] st2] eqn:E2;
      destruct (updateTitle_grows now d1 st1 _ _ (Hd1 d1 eq_refl) E2) as [H2 _];
      simpl; by eapply grows_trans.
  - rewrite ?router_get_store. apply grows_refl.
  - unfold post_chat. run_monad.
    destruct (negb (JsString.truthy_opt message)); [apply grows_refl|].
    destruct (provider _); [|apply grows_refl].
    destruct cid as [cid|], uid as [uid|]; simpl; try apply grows_refl.
    destruct (lookup_owned st cid uid) as [c|] eqn:Hc; [|apply grows_refl].
    simpl.
    destruct (addMessage now "user" (default "" message) None (hydrate cid c) st)
      as [[d1|e] st1] eqn:E1;
      destruct (addMessage_grows now _ _ _ _ st _ _ (hydrate_tracks st cid uid c Hc) E1)
        as [H1 Hd1]; [|exact H1].
    destruct (addMessage now "assistant" text None d1 st1) as [[d2|e] st2] eqn:E2;
      destruct (addMessage_grows now _ _ _ d1 st1 _ _ (Hd1 d1 eq_refl) E2) as [H2 _];
      simpl; by eapply grows_trans.
Qed.

(** X8.  Conversations only grow.  Over any sequence of requests that
    contains no delete, every conversation of the collection is still
    there at the end, with the owner and the creation time it had, and with
    the messages it had as the first messages of its sequence, in their
    order: no request but a delete removes a conversation, no request
    changes an owner, and none removes, rewrites or reorders a stored
    message. *)
Theorem conversations_only_grow regex_compile provider rs (st : store) :
  forallb (fun r => negb (is_delete r)) rs = true ->
  grows st (run regex_compile provider rs st).
Proof.
  revert st. induction rs as [|r rs IH]; intros st Hrs; [apply grows_refl|].
  simpl in Hrs. apply andb_true_iff in Hrs as [Hr Hrs].
  apply negb_true_iff in Hr.
  eapply grows_trans; [by apply effect_grows | by apply IH].
Qed.

Lemma conversations_only_grow_witness :
  grows Examples.one_trip
    (run Fragment.compile (fun _ => Completed "Sure.") Examples.session
       Examples.one_trip).
Proof.
  apply (conversations_only_grow Fragment.compile (fun _ => Completed "Sure.")
           Examples.session Examples.one_trip).
  reflexivity.
Defined.

(** ** Pages of a listing *)

Lemma concat_pages {A} (l : nat) (xs : list A) k :
  concat (List.map (fun p => take l (drop ((p - 1) * l) xs)) (seq 1 k))
  = take (k * l) xs.
Proof.
  induction k as [|k IH]; [by rewrite take_0|].
  rewrite seq_S, List.map_app, concat_app, IH. simpl.
  rewrite app_nil_r, Nat.sub_0_r, take_take_drop. f_equal. lia.
Qed.

(** Distinct keys leave one way to sort. *)
Lemma distinct_keys_inj {A B} (f : A -> B) (l : list A) x y :
  NoDup (List.map f l) -> x ∈ l -> y ∈ l -> f x = f y -> x = y.
Proof.
  induction l as [|a l IH]; simpl; intros Hnd Hx Hy Hf; [by inv Hx|].
  apply NoDup_cons in Hnd as [Hna Hnd].
  assert (Hin : forall z, z ∈ l -> f z ∈ List.map f l).
  { intros z Hz. apply list_elem_of_In, in_map, list_elem_of_In, Hz. }
  inv Hx; inv Hy; [reflexivity| | |by apply IH].
  - exfalso. apply Hna. rewrite Hf. by apply Hin.
  - exfalso. apply Hna. rewrite <- Hf. by apply Hin.
Qed.

Lemma sorted_order_unique (found order : list (N * conversation)) :
  NoDup (List.map (fun kc : N * conversation => updatedAt kc.2) found) ->
  order ≡ₚ found ->
  StronglySorted newer_first order ->
  order = merge_sort newer_first found.
Proof.
  intros Hd Hperm Hsorted.
  apply (StronglySorted_unique_strong newer_first); [|done| |].
  - intros x1 x2 H1 H2 H12 H21.
    apply (distinct_keys_inj (fun kc : N * conversation => updatedAt kc.2) found);
      [done| by rewrite <- Hperm | by rewrite merge_sort_Permutation in H2 |].
    unfold newer_first in H12, H21. lia.
  - apply StronglySorted_merge_sort; apply _.
  - by rewrite merge_sort_Permutation.
Qed.

(** X9.  The pages of a listing partition it.  When the search text is
    empty or compiles and no two of the documents found were last updated
    at the same time, the documents found have one order of descending
    [updatedAt], and the items of pages 1 to totalPages, one after the
    other, are the summaries of all of them in that order, each exactly
    once; and every page after the last one is empty. *)
Theorem pages_partition regex_compile uid limit archived search (st : store) re order :
  search_filter regex_compile search = Some re ->
  let l := Pos.to_nat (default 20%positive limit) in
  let found :=
    List.filter (list_query uid (archived_flag archived) re) (map_to_list st) in
  NoDup (List.map (fun kc : N * conversation => updatedAt kc.2) found) ->
  order ≡ₚ found ->
  StronglySorted newer_first order ->
  concat (List.map (page_items regex_compile uid limit archived search st)
            (seq 1 (ceil_div (length found) l)))
  = List.map select_item order
  /\ forall p, (ceil_div (length found) l < p)%nat ->
       page_items regex_compile uid limit archived search st p = [].
Proof.
  intros Hre l found Hdistinct Hperm Hsorted.
  rewrite (sorted_order_unique found order Hdistinct Hperm Hsorted).
  assert (Hl : (0 < l)%nat) by (unfold l; lia).
  assert (Hitems : forall p, (1 <= p)%nat ->
            page_items regex_compile uid limit archived search st p
            = List.map select_item
                (take l (drop ((p - 1) * l) (merge_sort newer_first found)))).
  { intros p Hp. unfold page_items. rewrite get_conversations_run, Hre. simpl.
    unfold paginate. rewrite Nat2Pos.id by lia. reflexivity. }
  assert (Hlen : length (merge_sort newer_first found) = length found)
    by (by rewrite merge_sort_Permutation).
  destruct (ceil_div_spec (length found) l Hl) as [Hceil _].
  split.
  - rewrite (map_ext_in _ (fun p => List.map select_item
               (take l (drop ((p - 1) * l) (merge_sort newer_first found))))).
    + rewrite <- (List.map_map
                    (fun p => take l (drop ((p - 1) * l) (merge_sort newer_first found)))
                    (List.map select_item)).
      rewrite <- concat_map, concat_pages, take_ge by lia. reflexivity.
    + intros p Hp. apply in_seq in Hp. apply Hitems. lia.
  - intros p Hp. rewrite Hitems by lia.
    rewrite drop_ge; [by rewrite take_nil|]. nia.
Qed.

Lemma pages_partition_witness :
  concat (List.map (page_items Fragment.compile 7 (Some 20%positive) None None
                      Examples.forty_five) (seq 1 3))
  = List.map select_item
      (merge_sort newer_first
         (List.filter (list_query 7 false None) (map_to_list Examples.forty_five)))
  /\ page_items Fragment.compile 7 (Some 20%positive) None None Examples.forty_five 4
     = [].
Proof.
  pose proof (pages_partition Fragment.compile 7 (Some 20%positive) None None
                Examples.forty_five None
                (merge_sort newer_first
                   (List.filter (list_query 7 (archived_flag None) None)
                      (map_to_list Examples.forty_five)))
                eq_refl) as H.
  cbv zeta in H.
  assert (Hd : NoDup (List.map (fun kc : N * conversation => updatedAt kc.2)
                        (List.filter (list_query 7 (archived_flag None) None)
                           (map_to_list Examples.forty_five)))).
  { apply (bool_decide_unpack _). vm_compute. exact I. }
  destruct (H Hd (merge_sort_Permutation _ _)
              (StronglySorted_merge_sort _ _)) as [Hcat Hlast].
  assert (Hn : ceil_div
                 (length (List.filter (list_query 7 (archived_flag None) None)
                            (map_to_list Examples.forty_five)))
                 (Pos.to_nat (default 20%positive (Some 20%positive))) = 3%nat)
    by (vm_compute; reflexivity).
  rewrite Hn in Hcat, Hlast. split; [exact Hcat | apply Hlast; lia].
Defined.

(** ** The chat relay: requests, unresolved conversations, the next turn *)



(** X13.  A chat that names a conversation it cannot resolve (no user id
    in the body, no such conversation, or a conversation of another user)
    is served without context and without persistence: the request holds
    the user message alone, a successful completion is answered with the
    reply and with the conversation id echoed back, and the collection is
    unchanged. *)
Theorem chat_unresolved provider now msg cid uid (st : store) text :
  JsString.truthy msg = true ->
  (forall u, uid = Some u -> lookup_owned st cid u = None) ->
  provider (chat_request st msg (Some cid) uid) = Completed text ->
  cr_messages (chat_request st msg (Some cid) uid)
  = [{| cm_role := "user"; cm_content := msg |}]
  /\ post_chat provider now (Some msg) (Some cid) uid st
     = (Ok {| reply := text; reply_conversationId := Some cid |}, st).
Proof.
  intros Hmsg Hun Hprov. split.
  - unfold chat_request, conversationContext. simpl.
    destruct uid as [u|]; [|reflexivity]. by rewrite (Hun u eq_refl).
  - unfold post_chat. run_monad. rewrite Hmsg. simpl. rewrite Hprov.
    destruct uid as [u|]; simpl; [|reflexivity]. by rewrite (Hun u eq_refl).
Qed.

Lemma chat_unresolved_witness :
  cr_messages (chat_request Examples.one_trip "hi" (Some 1%N) (Some 8%N))
  = [{| cm_role := "user"; cm_content := "hi" |}]
  /\ post_chat (fun _ => Completed "Hello.") 10 (Some "hi") (Some 1%N) (Some 8%N)
       Examples.one_trip
     = (Ok {| reply := "Hello."; reply_conversationId := Some 1%N |},
        Examples.one_trip).
Proof.
  apply (chat_unresolved (fun _ => Completed "Hello.") 10 "hi" 1 (Some 8%N)
           Examples.one_trip "Hello."); [reflexivity | | reflexivity].
  intros u [= <-]. reflexivity.
Defined.

Lemma slice_last_snoc2 {A} n (l : list A) x y :
  slice_last (S (S n)) (l ++ [x; y]) = slice_last n l ++ [x; y].
Proof.
  unfold slice_last. rewrite length_app. simpl.
  replace (length l + 2 - S (S n))%nat with (length l - n)%nat by lia.
  apply drop_app_le. lia.
Qed.

(** X14.  A turn becomes context of the next one.  After a chat on a
    conversation of the caller whose completion succeeded, with message and
    reply not blank, the context of the next chat on that conversation ends
    with the user message and the reply of this turn, trimmed and in that
    order, preceded by at most eight of the messages stored before. *)
Theorem chat_next_turn provider now msg cid uid (st : store) c text :
  lookup_owned st cid uid = Some c ->
  JsString.truthy (JsString.trim msg) = true ->
  JsString.truthy (JsString.trim text) = true ->
  provider (chat_request st msg (Some cid) (Some uid)) = Completed text ->
  conversationContext
    (post_chat provider now (Some msg) (Some cid) (Some uid) st).2
    (Some cid) (Some uid)
  = List.map reduce_message (slice_last 8 (messages c))
    ++ [{| cm_role := "user"; cm_content := JsString.trim msg |};
        {| cm_role := "assistant"; cm_content := JsString.trim text |}].
Proof.
  intros Hc Hm Ht Hprov.
  assert (Hmsg : JsString.truthy msg = true).
  { destruct msg; [discriminate|reflexivity]. }
  rewrite (post_chat_attached provider now msg cid uid st c text Hc Hmsg Hprov).
  rewrite Hm, Ht. cbv zeta. cbn [snd].
  set (c' := doc_data (stamped now (push_message now "assistant" text default_model
                (stamped now (push_message now "user" msg default_model
                                (hydrate cid c)))))).
  assert (Ho : lookup_owned (<[cid := c']> st) cid uid = Some c').
  { apply lookup_owned_Some. split; [apply lookup_insert_eq|].
    by apply lookup_owned_Some in Hc as [_ ?]. }
  unfold conversationContext. rewrite Ho.
  assert (Hms : messages c'
                = messages c ++ [stored_message now "user" msg None;
                                 stored_message now "assistant" text None]).
  { unfold c'. simpl. by rewrite <- app_assoc. }
  rewrite Hms, (slice_last_snoc2 8), List.map_app. reflexivity.
Qed.

Lemma chat_next_turn_witness :
  conversationContext
    (post_chat (fun _ => Completed " Sure. ") 10 (Some "Plan a trip") (Some 1%N)
       (Some 7%N) Examples.one_trip).2 (Some 1%N) (Some 7%N)
  = [{| cm_role := "user"; cm_content := "Plan a trip" |};
     {| cm_role := "assistant"; cm_content := "Sure." |}].
Proof.
  apply (chat_next_turn (fun _ => Completed " Sure. ") 10 "Plan a trip" 1 7
           Examples.one_trip Examples.trip " Sure. "); reflexivity.
Defined.

(** ** The most recently updated conversation is listed first *)

Lemma merge_sort_head (found : list (N * conversation)) x :
  x ∈ found ->
  (forall y, y ∈ found -> y = x \/ (updatedAt y.2 < updatedAt x.2)%N) ->
  exists rest, merge_sort newer_first found = x :: rest.
Proof.
  intros Hx Hmax.
  pose proof (merge_sort_Permutation newer_first found) as Hperm.
  pose proof (StronglySorted_merge_sort newer_first found) as Hsorted.
  destruct (merge_sort newer_first found) as [|h t] eqn:E.
  - rewrite <- Hperm in Hx. by apply elem_of_nil in Hx.
  - exists t. f_equal.
    assert (Hh : h ∈ found) by (rewrite <- Hperm; left).
    destruct (Hmax h Hh) as [Heq | Hlt]; [exact Heq|].
    rewrite <- Hperm in Hx. apply elem_of_cons in Hx as [->|Hxt]; [done|].
    apply StronglySorted_inv in Hsorted as [_ Hall].
    rewrite Forall_forall in Hall. specialize (Hall x Hxt).
    unfold newer_first in Hall. lia.
Qed.

(** X15.  After an append, the conversation leads the listing.  When an
    append to an unarchived conversation of the caller succeeds at a time
    later than the last update of every other conversation, the caller's
    next listing (first page, any limit, no search) starts with that
    conversation, with the time of the append as its update time. *)
Theorem appended_listed_first regex_compile now id uid r text mdl limit
    (st : store) c :
  (r = "user" \/ r = "assistant") ->
  JsString.truthy (JsString.trim text) = true ->
  lookup_owned st id uid = Some c ->
  isArchived c = false ->
  (forall id' c', st !! id' = Some c' -> id' <> id -> (updatedAt c' < now)%N) ->
  exists page it rest,
    get_conversations regex_compile uid None limit None None
      (post_message now id uid (Some r) (Some text) mdl st).2
    = (Ok page, (post_message now id uid (Some r) (Some text) mdl st).2)
    /\ conversations page = it :: rest
    /\ li_id it = id /\ li_updatedAt it = now.
Proof.
  intros Hr Ht Hc Harch Hlater.
  assert (Hne : text <> "") by (intros ->; discriminate).
  rewrite (post_message_found now id uid r text mdl st c Hr Hne Hc), Ht.
  fold (appended now id r text mdl c). cbv zeta. cbn [snd].
  destruct (appended_fields now id r text mdl c)
    as (_ & Hu & _ & _ & _ & Ha & _ & _ & _ & Hup & _).
  set (c1 := appended now id r text mdl c) in *.
  set (st' := <[id := c1]> st).
  rewrite get_conversations_run.
  change (search_filter regex_compile None) with (Some (@None (string -> bool))).
  cbv beta iota zeta.
  set (found := List.filter (list_query uid (archived_flag None) None) (map_to_list st')).
  assert (Hin : (id, c1) ∈ found).
  { apply elem_of_filter_bool. split.
    - apply elem_of_map_to_list. apply lookup_insert_eq.
    - apply list_query_spec. simpl. split_and!; [|by rewrite Ha|done].
      rewrite Hu. by apply lookup_owned_Some in Hc as [_ ?]. }
  destruct (merge_sort_head found (id, c1) Hin) as [rest Hsorted].
  { intros [k ck] Hk. apply elem_of_filter_bool in Hk as [Hk _].
    apply elem_of_map_to_list in Hk. simpl. rewrite Hup.
    destruct (decide (k = id)) as [->|Hkid].
    - left. unfold st' in Hk. rewrite lookup_insert_eq in Hk. congruence.
    - right. unfold st' in Hk. rewrite lookup_insert_ne in Hk by done.
      by eapply Hlater. }
  assert (Hpage : paginate 1 (default 20%positive limit) found
                  = (id, c1) :: take (Pos.to_nat (default 20%positive limit) - 1) rest).
  { unfold paginate. rewrite Hsorted.
    destruct (Pos.to_nat (default 20%positive limit)) as [|l] eqn:El; [lia|].
    simpl. by rewrite Nat.sub_0_r. }
  exists {| conversations :=
              List.map select_item (paginate 1 (default 20%positive limit) found);
            totalPages := ceil_div (length found)
                            (Pos.to_nat (default 20%positive limit));
            currentPage := 1%positive;
            total := length found |},
    (select_item (id, c1)),
    (List.map select_item (take (Pos.to_nat (default 20%positive limit) - 1) rest)).
  split; [reflexivity|].
  cbn [conversations]. rewrite Hpage.
  split_and!; [reflexivity | reflexivity | exact Hup].
Qed.

Lemma appended_listed_first_witness :
  exists page it rest,
    get_conversations Fragment.compile 7 None None None None
      (post_message 9 3 7 (Some "user") (Some "hello") None
         (<[3%N := Examples.numbered 2]> (<[4%N := Examples.numbered 8]> ∅))).2
    = (Ok page,
       (post_message 9 3 7 (Some "user") (Some "hello") None
          (<[3%N := Examples.numbered 2]> (<[4%N := Examples.numbered 8]> ∅))).2)
    /\ conversations page = it :: rest
    /\ li_id it = 3%N /\ li_updatedAt it = 9%N.
Proof.
  apply (appended_listed_first Fragment.compile 9 3 7 "user" "hello" None None
           (<[3%N := Examples.numbered 2]> (<[4%N := Examples.numbered 8]> ∅))
           (Examples.numbered 2)); [by left | reflexivity | reflexivity | reflexivity |].
  intros id' c' Hc' Hne.
  rewrite lookup_insert_ne in Hc' by done.
  destruct (decide (id' = 4%N)) as [->|Hne4].
  - rewrite lookup_insert_eq in Hc'. injection Hc' as <-. reflexivity.
  - rewrite lookup_insert_ne in Hc' by done. by rewrite lookup_empty in Hc'.
Defined.

(** ** Updating twice *)

Lemma apply_updates_idem now u c :
  apply_updates now u (apply_updates now u c) = apply_updates now u c.
Proof.
  destruct u as [[t|] [g|] [a|] [p|] [s|]]; reflexivity.
Qed.

(** X18.  An update is idempotent.  Repeating a valid update of a
    conversation of the caller, with the same body at the same time,
    answers the same summary and leaves the collection as the first update
    left it. *)
Theorem update_idempotent now id uid body (st : store) c :
  valid_updates (cast_updates (build_updates body)) = true ->
  lookup_owned st id uid = Some c ->
  exists s st',
    put_conversation now id uid body st = (Ok s, st')
    /\ put_conversation now id uid body st' = (Ok s, st').
Proof.
  intros Hv Hc. rewrite put_conversation_run. cbv zeta. rewrite Hv, Hc.
  set (u := cast_updates (build_updates body)) in *.
  exists (getSummary id (apply_updates now u c)), (<[id := apply_updates now u c]> st).
  split; [reflexivity|].
  rewrite put_conversation_run. cbv zeta. fold u. rewrite Hv.
  assert (Ho : lookup_owned (<[id := apply_updates now u c]> st) id uid
               = Some (apply_updates now u c)).
  { apply lookup_owned_Some. split; [apply lookup_insert_eq|].
    simpl. by apply lookup_owned_Some in Hc as [_ ?]. }
  rewrite Ho, apply_updates_idem, insert_insert_eq. reflexivity.
Qed.

Lemma update_idempotent_witness :
  exists s st',
    put_conversation 12 1 7
      {| p_title := Some " Holiday "; p_tags := None; p_isArchived := Some true;
         p_isPinned := None; p_settings := None |} Examples.one_trip = (Ok s, st')
    /\ put_conversation 12 1 7
         {| p_title := Some " Holiday "; p_tags := None; p_isArchived := Some true;
            p_isPinned := None; p_settings := None |} st' = (Ok s, st').
Proof.
  apply (update_idempotent 12 1 7 _ Examples.one_trip Examples.trip); reflexivity.
Defined.
